(** * The scroll text object of conky: [parse_scroll_arg] and [print_scroll]

    A shallow embedding of [src/scroll.c].  C strings and [char] arrays are
    lists of [ascii]; [unsigned int] values are integers reduced modulo
    [2^32]; a memory access outside an array stops the run with a fault. *)

From Stdlib Require Import ZArith Ascii String Bool Lia.
From Stdlib Require Import List.
Import ListNotations.

Local Open Scope Z_scope.

(** ** C data *)

Definition NUL : ascii := "000".
Definition newline : ascii := "010".
Definition space : ascii := " ".

(** [#define LINESEPARATOR '|'] *)
Definition LINESEPARATOR : ascii := "|".

(** Conversion to [unsigned int] (32 bits) and to [size_t] / [unsigned long]
    (64 bits, the LP64 data model). *)
Definition u32 (x : Z) : Z := x mod 2 ^ 32.
Definition u64 (x : Z) : Z := x mod 2 ^ 64.
Definition INT_MAX : Z := 2 ^ 31 - 1.

(** What a [char *] denotes as a string: the characters before the first
    terminator. *)
Fixpoint c_str (s : list ascii) : list ascii :=
  match s with
  | [] => []
  | c :: t => if (c =? NUL)%char then [] else c :: c_str t
  end.

Definition strlen (s : list ascii) : Z := Z.of_nat (length (c_str s)).

(** [*(s + i)] for a terminated string [s] and [i <= strlen s]. *)
Definition char_at (s : list ascii) (i : Z) : ascii := nth (Z.to_nat i) (c_str s) NUL.

(** ** Outcomes

    [CritErr] is conky's [CRIT_ERR]: the message is logged and the program
    exits.  The other three are not errors the code reports: they mark the
    places where C gives the program no defined behaviour, a read outside
    the [buf] array, a write past the end of the [malloc]ed block, and an
    [int] counted past [INT_MAX].  Allocation itself is taken to succeed. *)

Inductive error : Type :=
| CritErr (msg : string)
| OutOfBounds
| HeapOverflow
| IntOverflow.

Inductive result (A : Type) : Type :=
| Ok (a : A)
| Err (e : error).

Arguments Ok {A} a.
Arguments Err {A} e.

Definition bind {A B : Type} (r : result A) (k : A -> result B) : result B :=
  match r with
  | Ok a => k a
  | Err e => Err e
  end.

Notation "x <- r ;; k" := (bind r (fun x => k))
  (at level 61, r at next level, right associativity).
Notation "' pat <- r ;; k" := (bind r (fun x => match x with pat => k end))
  (at level 61, pat pattern, r at next level, right associativity).

(** ** [sscanf (s, "%u %n", &v, &n)]

    The C library function, for the one format the code uses. *)

Definition isspace (c : ascii) : bool :=
  match c with
  | " " | "009" | "010" | "011" | "012" | "013" => true
  | _ => false
  end%char.

Definition isdigit (c : ascii) : bool :=
  match c with
  | "0" | "1" | "2" | "3" | "4" | "5" | "6" | "7" | "8" | "9" => true
  | _ => false
  end%char.

Definition digit_val (c : ascii) : Z := Z.of_nat (nat_of_ascii c) - 48.

Fixpoint skip_space (s : list ascii) : list ascii :=
  match s with
  | [] => []
  | c :: t => if isspace c then skip_space t else s
  end.

(** The longest run of decimal digits at the head of [s], and what follows. *)
Fixpoint span_digits (s : list ascii) : list ascii * list ascii :=
  match s with
  | [] => ([], [])
  | c :: t =>
      if isdigit c
      then let (ds, r) := span_digits t in (c :: ds, r)
      else ([], s)
  end.

Fixpoint decimal (acc : Z) (ds : list ascii) : Z :=
  match ds with
  | [] => acc
  | c :: t => decimal (10 * acc + digit_val c) t
  end.

Definition ULONG_MAX : Z := 2 ^ 64 - 1.

(** [strtoul]: a magnitude too large for [unsigned long] gives [ULONG_MAX];
    a leading minus sign negates the value in [unsigned long].  [sscanf]
    stores the result in the [unsigned int] by truncation, as the GNU C
    library does. *)
Definition strtoul_value (neg : bool) (m : Z) : Z :=
  if ULONG_MAX <? m then ULONG_MAX
  else if neg then u64 (- m) else m.

Inductive scanned : Type :=
| ScanEOF                      (* input ends before the first conversion *)
| ScanFail                     (* no integer where one is wanted *)
| ScanOk (v : Z) (n : Z).      (* [%u] stored [v], [%n] stored [n] *)

(** The value [sscanf] returns. *)
Definition scan_ret (r : scanned) : Z :=
  match r with
  | ScanEOF => -1
  | ScanFail => 0
  | ScanOk _ _ => 1
  end.

(** [%u] skips white space, then takes an optional sign and decimal digits;
    the blank in the format skips white space again; [%n] stores how many
    characters were read so far. *)
Definition sscanf_u_n (s : list ascii) : scanned :=
  match skip_space s with
  | [] => ScanEOF
  | c :: t =>
      let '(neg, s2) :=
        if (c =? "-")%char then (true, t)
        else if (c =? "+")%char then (false, t)
        else (false, c :: t) in
      match span_digits s2 with
      | ([], _) => ScanFail
      | (ds, s3) =>
          ScanOk (u32 (strtoul_value neg (decimal 0 ds)))
                 (Z.of_nat (length s) - Z.of_nat (length (skip_space s3)))
      end
  end.

(** ** The scroll object: [obj->data.scroll] *)

Record scroll : Type := mkScroll {
  text : list ascii;     (* char *text *)
  show : Z;              (* unsigned int show *)
  step : Z;              (* unsigned int step *)
  start : Z;             (* unsigned int start *)
  resetcolor : Z         (* long resetcolor *)
}.

Definition set_start (obj : scroll) (s : Z) : scroll :=
  mkScroll (text obj) (show obj) (step obj) s (resetcolor obj).

Definition needs_arguments : string :=
  "scroll needs arguments: <length> [<step>] <text>"%string.

(** [parse_scroll_arg (obj, arg, free_at_crash)].  [current_color] is what
    [get_current_text_color ()] returns; [arg = None] is the null pointer.
    The loop that writes the [show] blanks counts in the [int n2], which
    cannot reach a [show] above [INT_MAX].  The text object tree that
    [extract_variable_text_internal] builds from [text] belongs to the
    evaluator and is not part of the model. *)
Definition parse_scroll_arg (current_color : Z) (arg : option (list ascii))
  : result scroll :=
  match arg with
  | None => Err (CritErr needs_arguments)
  | Some a0 =>
      let a := c_str a0 in
      match sscanf_u_n a with
      | ScanOk shw n1 =>
          let '(stp, n2) :=
            match sscanf_u_n (skipn (Z.to_nat n1) a) with
            | ScanOk v n => (v, n)
            | _ => (1, 0)
            end in
          let '(n1', stp') :=
            if (char_at a (n1 + n2) =? NUL)%char then (n1, 1) else (n1 + n2, stp) in
          if INT_MAX <? shw then Err IntOverflow
          else Ok (mkScroll (repeat space (Z.to_nat shw) ++ skipn (Z.to_nat n1') a)
                            shw stp' 0 current_color)
      | _ => Err (CritErr needs_arguments)     (* sscanf (...) <= 0 *)
      end
  end.

Definition chars (s : string) : list ascii := list_ascii_of_string s.

(** ** [print_scroll] *)

(** What a call leaves in the caller's buffer [p]. *)
Record output : Type := mkOutput {
  written : list ascii;  (* the bytes stored from p[0] on, terminator included *)
  new_fg : option Z      (* the colour given to new_fg (p + strlen (p), ...), when called *)
}.

(** [snprintf (p, p_max_size, "%s", s)]: the [int] size becomes a [size_t];
    nothing is stored for size 0, otherwise at most [size - 1] characters
    and the terminator. *)
Definition snprintf_s (p_max_size : Z) (s : list ascii) : list ascii :=
  let n := u64 p_max_size in
  if n =? 0 then [] else firstn (Z.to_nat (n - 1)) (c_str s) ++ [NUL].

(** [buf[i]] for the array [buf]. *)
Definition read (buf : list ascii) (i : Z) : result ascii :=
  match nth_error buf (Z.to_nat i) with
  | Some c => Ok c
  | None => Err OutOfBounds
  end.

(** How the loop that fills the window ends. *)
Inductive fill_exit : Type :=
| HitNul (p : list ascii)               (* [if (!p[j]) return;] *)
| Filled (p : list ascii) (j visibcolorchanges : Z).

Section Scroll.

(** [SPECIAL_CHAR] comes from [specials.h] and [X11] from the build
    configuration; neither is fixed by [scroll.c]. *)
Variable SPECIAL_CHAR : ascii.
Variable X11 : bool.

(** The loop over [buf] up to its terminator: line breaks become
    [LINESEPARATOR] and the colour changes are counted.  The loops below walk
    the array from a position on; running off its end is a read out of
    bounds. *)
Fixpoint join_lines (buf : list ascii) (colorchanges : Z) : result (list ascii * Z) :=
  match buf with
  | [] => Err OutOfBounds
  | c :: rest =>
      if (c =? NUL)%char then Ok (buf, colorchanges)
      else if (c =? newline)%char then
        ' (rest', n) <- join_lines rest colorchanges ;;
        Ok (LINESEPARATOR :: rest', n)
      else if (c =? SPECIAL_CHAR)%char then
        ' (rest', n) <- join_lines rest (u32 (colorchanges + 1)) ;;
        Ok (c :: rest', n)
      else
        ' (rest', n) <- join_lines rest colorchanges ;;
        Ok (c :: rest', n)
  end.

(** [while (buf[start] == SPECIAL_CHAR) start++;] where [at_start] is the
    array from [buf + start] on. *)
Fixpoint skip_colorchanges (at_start : list ascii) (start : Z) : result Z :=
  match at_start with
  | [] => Err OutOfBounds
  | c :: rest =>
      if (c =? SPECIAL_CHAR)%char
      then skip_colorchanges rest (u32 (start + 1))
      else Ok start
  end.

(** [for (j = 0; j < show + visibcolorchanges; j++) { p[j] = buf[start + j]; ... }]
    where [at_j] is the array from [buf + start + j] on and [p] holds the
    [j] characters stored so far. *)
Fixpoint fill_window (shw : Z) (at_j : list ascii) (j visibcolorchanges : Z)
    (p : list ascii) : result fill_exit :=
  if j <? u32 (shw + visibcolorchanges) then
    match at_j with
    | [] => Err OutOfBounds
    | c :: rest =>
        let visib' :=
          if (c =? SPECIAL_CHAR)%char then u32 (visibcolorchanges + 1)
          else visibcolorchanges in
        if (c =? NUL)%char then Ok (HitNul (p ++ [c]))
        else fill_window shw rest (u32 (j + 1)) visib' (p ++ [c])
    end
  else Ok (Filled p j visibcolorchanges).

(** [for (; j < show + visibcolorchanges; j++) p[j] = ' ';] *)
Definition pad_window (shw j visibcolorchanges : Z) (p : list ascii)
  : list ascii * Z :=
  let bound := u32 (shw + visibcolorchanges) in
  (p ++ repeat space (Z.to_nat (bound - j)), Z.max j bound).

(** [for (j = 0; j < start; j++) if (buf[j] == SPECIAL_CHAR) frontcolorchanges++;]
    over the [start] characters in front of the window. *)
Fixpoint count_front (front : list ascii) (frontcolorchanges : Z) : Z :=
  match front with
  | [] => frontcolorchanges
  | c :: rest =>
      count_front rest
        (if (c =? SPECIAL_CHAR)%char then u32 (frontcolorchanges + 1)
         else frontcolorchanges)
  end.

(** [print_scroll (obj, p, p_max_size, cur)].  [buf] is the array as
    [generate_text_internal] leaves it; the result is the scroll object after
    the call and what the call stored in [p].  [size] is what [malloc] is
    asked for; the test on it is whether the bytes then stored into
    [pwithcolors] stay inside the block. *)
Definition print_scroll (obj : scroll) (buf : list ascii) (p_max_size : Z)
  : result (scroll * output) :=
  ' (buf, colorchanges) <- join_lines buf 0 ;;
  if u64 (strlen buf - colorchanges) <=? show obj then
    Ok (obj, mkOutput (snprintf_s p_max_size buf) None)
  else
    start1 <- skip_colorchanges (skipn (Z.to_nat (start obj)) buf) (start obj) ;;
    fx <- fill_window (show obj) (skipn (Z.to_nat start1) buf) 0 0 [] ;;
    match fx with
    | HitNul p => Ok (set_start obj start1, mkOutput p None)
    | Filled p j visibcolorchanges =>
        let '(p, j) := pad_window (show obj) j visibcolorchanges p in
        let p := p ++ [NUL] in
        let frontcolorchanges := count_front (firstn (Z.to_nat start1) buf) 0 in
        let size := u64 (strlen p + 1 + colorchanges - visibcolorchanges) in
        let behind := u32 (colorchanges - frontcolorchanges - visibcolorchanges) in
        if size <? frontcolorchanges + strlen p + behind + 1 then Err HeapOverflow
        else
          let pwithcolors :=
            repeat SPECIAL_CHAR (Z.to_nat frontcolorchanges) ++ c_str p
            ++ repeat SPECIAL_CHAR (Z.to_nat behind) ++ [NUL] in
          let start2 := u32 (start1 + step obj) in
          c <- read buf start2 ;;
          let start3 := if (c =? NUL)%char then 0 else start2 in
          Ok (set_start obj start3,
              mkOutput pwithcolors (if X11 then Some (resetcolor obj) else None))
    end.

End Scroll.

(** ** Calls on concrete texts

    [MARK] stands for the marker byte in the examples (conky's
    [SPECIAL_CHAR] is a control character). *)
Definition MARK : ascii := "001".

(** A [buf] array holding the string [s], its terminator, and [junk] behind
    it: what is left in the array from before the text was generated. *)
Definition buffer (s : list ascii) (junk : list ascii) : list ascii :=
  s ++ NUL :: junk.

(** The host's refresh loop on a text that stays the same: [n] calls, each
    on the object the one before left, and the slices in the order they were
    produced. *)
Fixpoint print_scroll_n (m : ascii) (X11 : bool) (n : nat) (obj : scroll)
    (buf : list ascii) (p_max_size : Z) : result (scroll * list output) :=
  match n with
  | O => Ok (obj, [])
  | S k =>
      ' (obj1, o) <- print_scroll m X11 obj buf p_max_size ;;
      ' (obj2, os) <- print_scroll_n m X11 k obj1 buf p_max_size ;;
      Ok (obj2, o :: os)
  end.

(** ** The vocabulary of the specification *)

Definition is_marker (m c : ascii) : bool := (c =? m)%char.

(** Number of markers in a text, and its printable length: its length less
    its markers. *)
Definition markers (m : ascii) (s : list ascii) : Z :=
  Z.of_nat (length (filter (is_marker m) s)).

Definition printable (m : ascii) (s : list ascii) : Z :=
  Z.of_nat (length s) - markers m s.

(** The evaluated text of a call: the string in [buf] with every line break
    replaced by the separator. *)
Definition evaluated (buf : list ascii) : list ascii :=
  map (fun c => if (c =? newline)%char then LINESEPARATOR else c) (c_str buf).

(** The markers that stand at the head of a text. *)
Fixpoint marker_run (m : ascii) (s : list ascii) : nat :=
  match s with
  | c :: t => if is_marker m c then S (marker_run m t) else O
  | [] => O
  end.

(** The window of a text: its shortest head that holds [n] characters other
    than markers (all of the text when it has fewer). *)
Fixpoint window_of (m : ascii) (s : list ascii) (n : nat) : list ascii :=
  match s, n with
  | c :: t, S k => c :: window_of m t (if is_marker m c then n else k)
  | _, _ => []
  end.

(** A byte that can serve as the marker: not the terminator, and neither of
    the two characters the line joining deals in. *)
Definition marker_byte (m : ascii) : Prop :=
  m <> NUL /\ m <> newline /\ m <> LINESEPARATOR.




(** An argument that opens, after white space, with an optional sign and a
    decimal digit. *)
Definition head_is_digit (s : list ascii) : bool :=
  match s with
  | d :: _ => isdigit d
  | [] => false
  end.

Definition starts_with_integer (arg : list ascii) : bool :=
  match skip_space (c_str arg) with
  | [] => false
  | c :: t =>
      isdigit c || ((c =? "-")%char || (c =? "+")%char) && head_is_digit t
  end.

(** The characters of a text that are shown: those that are not markers. *)
Definition visible (m : ascii) (s : list ascii) : list ascii :=
  filter (fun c => negb (is_marker m c)) s.

(** Where the window starts: the cursor moved over the markers that stand
    at it. *)
Definition cursor_after_skip (m : ascii) (txt : list ascii) (start0 : Z) : Z :=
  start0 + Z.of_nat (marker_run m (skipn (Z.to_nat start0) txt)).

(** The slice for a window that lies inside the text: as many markers as
    stand in front of the cursor, the window, and as many markers as stand
    behind the window. *)
Definition slice_at (m : ascii) (txt : list ascii) (cursor shw : Z) : list ascii :=
  let win := window_of m (skipn (Z.to_nat cursor) txt) (Z.to_nat shw) in
  let front := markers m (firstn (Z.to_nat cursor) txt) in
  let behind := markers m txt - front - markers m win in
  repeat m (Z.to_nat front) ++ win ++ repeat m (Z.to_nat behind).

(** ** [free_scroll]

    What [free_scroll] works on: the two pointers of the object, [None] for
    a null pointer, and the heap, the list of the blocks that [malloc] has
    handed out and [free] has not taken back. *)

Definition block : Type := nat.

Record scroll_ptrs : Type := mkPtrs {
  text_ptr : option block;   (* obj->data.scroll.text *)
  sub_ptr : option block     (* obj->sub *)
}.

(** [free (p)] for a pointer that is not null: the block leaves the heap;
    for a pointer to no block of the heap C defines no behaviour, and the
    result is [None]. *)
Definition c_free (p : block) (heap : list block) : option (list block) :=
  if existsb (Nat.eqb p) heap
  then Some (filter (fun b => negb (Nat.eqb p b)) heap)
  else None.

Section FreeScroll.

(** [free_text_objects (obj->sub, 1)] belongs to the text object code;
    here it is what it does to the heap. *)
Variable free_text_objects : block -> list block -> list block.

Definition free_scroll (obj : scroll_ptrs) (heap : list block)
  : option (scroll_ptrs * list block) :=
  match
    match text_ptr obj with
    | Some t => c_free t heap
    | None => Some heap
    end
  with
  | None => None
  | Some heap1 =>
      match sub_ptr obj with
      | Some s =>
          match c_free s (free_text_objects s heap1) with
          | Some heap2 => Some (mkPtrs (text_ptr obj) None, heap2)
          | None => None
          end
      | None => Some (obj, heap1)
      end
  end.

End FreeScroll.

(** ** The Lua binding: [lua::state::absindex], [lua::stack_sentry] and
    [lua::state::createuserdata]

    The Lua stack is the list of its values, the bottom first.  [gettop],
    [settop] and the meaning of an index are those of the Lua C API. *)

Module Lua.

Inductive outcome (A : Type) : Type :=
| Done (a : A)
| AssertFailed      (* an [assert] that does not hold *)
| Undefined.        (* an [int] out of range, or an index Lua does not accept *)

Arguments Done {A} a.
Arguments AssertFailed {A}.
Arguments Undefined {A}.

Definition and_then {A B : Type} (r : outcome A) (k : A -> outcome B) : outcome B :=
  match r with
  | Done a => k a
  | AssertFailed => AssertFailed
  | Undefined => Undefined
  end.

(** An [int] computed from [int]s. *)
Definition to_int (x : Z) : outcome Z :=
  if (- 2 ^ 31 <=? x) && (x <=? INT_MAX) then Done x else Undefined.

Section Stack.

Variable value : Type.
Variable nil : value.

(** [NDEBUG]: whether [assert] is compiled to nothing. *)
Variable NDEBUG : bool.

Definition assert {A : Type} (c : bool) (k : outcome A) : outcome A :=
  if NDEBUG || c then k else AssertFailed.

(** [lua_gettop]. *)
Definition gettop (st : list value) : Z := Z.of_nat (length st).

(** The value an index stands for: a positive index counts from the
    bottom, from 1; a negative one from the top, from -1. *)
Definition index2value (st : list value) (index : Z) : option value :=
  if 0 <? index then nth_error st (Z.to_nat (index - 1))
  else if (index <? 0) && (- index <=? gettop st)
       then nth_error st (Z.to_nat (gettop st + index))
       else None.

(** [lua_settop]: the stack is cut or filled with nil to the new top; a
    negative index counts from the top. *)
Definition settop (index : Z) (st : list value) : outcome (list value) :=
  if 0 <=? index then
    Done (firstn (Z.to_nat index) st ++ repeat nil (Z.to_nat (index - gettop st)))
  else if - index <=? gettop st + 1 then
    Done (firstn (Z.to_nat (gettop st + 1 + index)) st)
  else Undefined.

(** [int absindex (int index)]:
    [index<0 && -index<=gettop () ? gettop ()+1+index : index]. *)
Definition absindex (st : list value) (index : Z) : outcome Z :=
  if index <? 0 then
    and_then (to_int (- index)) (fun minus =>
      if minus <=? gettop st
      then and_then (to_int (gettop st + 1)) (fun t1 => to_int (t1 + index))
      else Done index)
  else Done index.

(** [class stack_sentry]: the number [n] of values to leave on the stack. *)
Record stack_sentry : Type := mkSentry { n : Z }.

(** [stack_sentry (state &l, int n_ = 0)]. *)
Definition stack_sentry_new (st : list value) (n_ : Z) : outcome stack_sentry :=
  and_then (to_int (gettop st + n_)) (fun n0 =>
    assert (0 <=? n0) (Done (mkSentry n0))).

(** [~stack_sentry ()]. *)
Definition stack_sentry_delete (s : stack_sentry) (st : list value)
  : outcome (list value) :=
  assert (n s <=? gettop st) (settop (n s) st).

(** [operator++], [operator--], [operator+=] and [operator-=]. *)
Definition incr (s : stack_sentry) : outcome stack_sentry :=
  and_then (to_int (n s + 1)) (fun n0 => Done (mkSentry n0)).

Definition decr (s : stack_sentry) : outcome stack_sentry :=
  and_then (to_int (n s - 1)) (fun n0 => assert (0 <=? n0) (Done (mkSentry n0))).

Definition add (s : stack_sentry) (n_ : Z) : outcome stack_sentry :=
  and_then (to_int (n s + n_)) (fun n0 => Done (mkSentry n0)).

Definition sub (s : stack_sentry) (n_ : Z) : outcome stack_sentry :=
  and_then (to_int (n s - n_)) (fun n0 => assert (0 <=? n0) (Done (mkSentry n0))).

(** [createuserdata<T> (args)].  [newuserdata] pushes the new userdata [u];
    [construct] is what the constructor of [T] does to the stack, and whether
    it throws.  The sentry is destroyed on both ways out. *)
Definition createuserdata (construct : list value -> bool * list value)
    (u : value) (st : list value) : outcome (bool * list value) :=
  and_then (stack_sentry_new st 0) (fun s =>
    let st1 := st ++ [u] in
    let '(threw, st2) := construct st1 in
    if threw
    then and_then (stack_sentry_delete s st2) (fun st3 => Done (true, st3))
    else and_then (incr s) (fun s' =>
         and_then (stack_sentry_delete s' st2) (fun st3 => Done (false, st3)))).

End Stack.

Arguments gettop {value} st.
Arguments index2value {value} st index.
Arguments settop {value} nil index st.
Arguments absindex {value} st index.
Arguments stack_sentry_new {value} NDEBUG st n_.
Arguments stack_sentry_delete {value} nil NDEBUG s st.
Arguments createuserdata {value} nil NDEBUG construct u st.

End Lua.

(** * Properties *)

(** ** Arithmetic and strings *)

Lemma u32_small (x : Z) : 0 <= x < 2 ^ 32 -> u32 x = x.
Proof. intros H. unfold u32. now apply Z.mod_small. Qed.

Lemma u64_small (x : Z) : 0 <= x < 2 ^ 64 -> u64 x = x.
Proof. intros H. unfold u64. now apply Z.mod_small. Qed.

Lemma u32_range (x : Z) : 0 <= u32 x < 2 ^ 32.
Proof. unfold u32. apply Z.mod_pos_bound. lia. Qed.

(** ** Terminated buffers *)

Lemma c_str_no_NUL (s : list ascii) : ~ In NUL (c_str s).
Proof.
  induction s as [|c t IH]; simpl; [tauto|].
  destruct (Ascii.eqb_spec c NUL) as [->|Hc]; simpl; [tauto|].
  intros [E|E]; [now apply Hc|now apply IH].
Qed.

Lemma c_str_app_NUL (s junk : list ascii) :
  ~ In NUL s -> c_str (s ++ NUL :: junk) = s.
Proof.
  induction s as [|c t IH]; simpl; intros H; [reflexivity|].
  destruct (Ascii.eqb_spec c NUL) as [->|Hc]; [tauto|].
  rewrite IH; tauto.
Qed.

(** A buffer that holds a terminator is its string, the terminator, and
    what lies behind. *)
Lemma terminated_split (buf : list ascii) :
  In NUL buf ->
  exists junk, skipn (length (c_str buf)) buf = NUL :: junk.
Proof.
  induction buf as [|c t IH]; simpl; [tauto|].
  destruct (Ascii.eqb_spec c NUL) as [->|Hc]; simpl.
  - intros _. now exists t.
  - intros [E|E]; [congruence|now apply IH].
Qed.

Lemma c_str_id (s : list ascii) : ~ In NUL s -> c_str s = s.
Proof.
  intros H. rewrite <- (c_str_app_NUL s [] H) at 2.
  induction s as [|c t IH]; cbn [c_str app In] in *.
  - reflexivity.
  - destruct (Ascii.eqb_spec c NUL) as [->|Hc]; [tauto|].
    rewrite IH; tauto.
Qed.

Lemma evaluated_no_NUL (buf : list ascii) : ~ In NUL (evaluated buf).
Proof.
  unfold evaluated. intros H. apply in_map_iff in H as (c & E & Hin).
  destruct (Ascii.eqb_spec c newline); [discriminate|].
  subst c. now apply c_str_no_NUL in Hin.
Qed.

Lemma evaluated_length (buf : list ascii) :
  length (evaluated buf) = length (c_str buf).
Proof. unfold evaluated. apply length_map. Qed.

Lemma skipn_app_exact {A : Type} (l r : list A) (n : nat) :
  (n <= length l)%nat -> skipn n (l ++ r) = skipn n l ++ r.
Proof.
  intros H. rewrite skipn_app.
  replace (n - length l)%nat with O by lia. reflexivity.
Qed.

Lemma snprintf_s_bounded (n : Z) (s : list ascii) :
  0 <= n < 2 ^ 64 -> Z.of_nat (length (snprintf_s n s)) <= n.
Proof.
  intros H. unfold snprintf_s. rewrite (u64_small n H).
  destruct (Z.eqb_spec n 0) as [->|Hn]; simpl; [lia|].
  rewrite length_app, length_firstn. simpl. lia.
Qed.

Lemma snprintf_s_fits (n : Z) (s : list ascii) :
  strlen s < n < 2 ^ 64 -> snprintf_s n s = c_str s ++ [NUL].
Proof.
  unfold strlen, snprintf_s. intros H.
  rewrite u64_small by lia.
  destruct (Z.eqb_spec n 0) as [->|Hn]; [lia|].
  rewrite firstn_all2 by lia. reflexivity.
Qed.

Section ScrollProofs.

Variable SPECIAL_CHAR : ascii.
Variable X11 : bool.
Hypothesis reserved : marker_byte SPECIAL_CHAR.

Lemma markers_nil : markers SPECIAL_CHAR [] = 0.
Proof. reflexivity. Qed.

Lemma markers_cons (c : ascii) (s : list ascii) :
  markers SPECIAL_CHAR (c :: s) =
  (if (c =? SPECIAL_CHAR)%char then 1 else 0) + markers SPECIAL_CHAR s.
Proof.
  unfold markers, is_marker. simpl.
  destruct (c =? SPECIAL_CHAR)%char; simpl length; lia.
Qed.

Lemma markers_bounds (s : list ascii) :
  0 <= markers SPECIAL_CHAR s <= Z.of_nat (length s).
Proof.
  unfold markers. pose proof (filter_length_le (is_marker SPECIAL_CHAR) s). lia.
Qed.

Lemma printable_cons (c : ascii) (s : list ascii) :
  printable SPECIAL_CHAR (c :: s) =
  (if (c =? SPECIAL_CHAR)%char then 0 else 1) + printable SPECIAL_CHAR s.
Proof.
  unfold printable. rewrite markers_cons. simpl length.
  destruct (c =? SPECIAL_CHAR)%char; lia.
Qed.

Lemma printable_bounds (s : list ascii) :
  0 <= printable SPECIAL_CHAR s <= Z.of_nat (length s).
Proof. unfold printable. pose proof (markers_bounds s). lia. Qed.

(** *** The first loop *)

Lemma join_lines_evaluated (buf : list ascii) :
  In NUL buf ->
  forall n, 0 <= n -> n + markers SPECIAL_CHAR (evaluated buf) < 2 ^ 32 ->
  join_lines SPECIAL_CHAR buf n =
  Ok (evaluated buf ++ skipn (length (c_str buf)) buf,
      n + markers SPECIAL_CHAR (evaluated buf)).
Proof.
  destruct reserved as (HN & Hnl & Hsep).
  unfold evaluated.
  induction buf as [|c t IH]; cbn [In c_str join_lines]; [tauto|].
  intros Hin n Hn Hlt. revert Hlt.
  destruct (Ascii.eqb_spec c NUL) as [->|Hc]; intros Hlt.
  - cbn [map length skipn app]. rewrite markers_nil, Z.add_0_r. reflexivity.
  - assert (Ht : In NUL t) by (destruct Hin; congruence).
    cbn [map length skipn] in *. rewrite markers_cons in Hlt |- *.
    pose proof (markers_bounds
      (map (fun c => if (c =? newline)%char then LINESEPARATOR else c) (c_str t))) as Hb.
    revert Hlt.
    destruct (Ascii.eqb_spec c newline) as [->|Hcn].
    + destruct (Ascii.eqb_spec LINESEPARATOR SPECIAL_CHAR) as [E|_]; [congruence|].
      intros Hlt. rewrite (IH Ht n) by lia. reflexivity.
    + destruct (Ascii.eqb_spec c SPECIAL_CHAR) as [->|Hcs]; intros Hlt.
      * rewrite u32_small by lia. rewrite (IH Ht (n + 1)) by lia.
        cbn [bind app]. do 2 f_equal. lia.
      * rewrite (IH Ht n) by lia. reflexivity.
Qed.

Lemma c_str_length_lt (buf : list ascii) :
  In NUL buf -> (length (c_str buf) < length buf)%nat.
Proof.
  induction buf as [|c t IH]; cbn [In c_str length]; [tauto|].
  destruct (Ascii.eqb_spec c NUL) as [->|Hc]; cbn [length]; [lia|].
  intros [E|E]; [congruence|]. apply IH in E. lia.
Qed.

Lemma markers_app (s t : list ascii) :
  markers SPECIAL_CHAR (s ++ t) = markers SPECIAL_CHAR s + markers SPECIAL_CHAR t.
Proof. unfold markers. rewrite filter_app, length_app. lia. Qed.

Lemma markers_split (n : nat) (s : list ascii) :
  markers SPECIAL_CHAR (firstn n s) + markers SPECIAL_CHAR (skipn n s) =
  markers SPECIAL_CHAR s.
Proof. rewrite <- markers_app, firstn_skipn. reflexivity. Qed.

Lemma marker_run_le (s : list ascii) :
  (marker_run SPECIAL_CHAR s <= length s)%nat.
Proof.
  induction s as [|c t IH]; cbn [marker_run length]; [lia|].
  destruct (is_marker SPECIAL_CHAR c); lia.
Qed.

(** What the first loop does to a terminated buffer that is not longer than
    an [unsigned int] can count. *)
Lemma join_lines_terminated (buf : list ascii) :
  In NUL buf -> Z.of_nat (length buf) < 2 ^ 32 ->
  exists junk,
    join_lines SPECIAL_CHAR buf 0 =
    Ok (evaluated buf ++ NUL :: junk, markers SPECIAL_CHAR (evaluated buf)).
Proof.
  intros Hin Hlen.
  destruct (terminated_split buf Hin) as (junk & Hj).
  exists junk. rewrite <- Hj.
  pose proof (markers_bounds (evaluated buf)) as Hb.
  pose proof (c_str_length_lt buf Hin) as Hl.
  rewrite evaluated_length in Hb.
  rewrite (join_lines_evaluated buf Hin 0) by lia.
  reflexivity.
Qed.

(** *** The short text *)

(** C3, amended.  When the printable length of the evaluated text is at
    most [show], the call leaves the whole scroll object, the cursor with
    it, as it was, and stores the text as far as [p_max_size] allows:
    nothing for a size of 0, otherwise the first [p_max_size - 1] characters
    and the terminator; that is the entire text and its terminator whenever
    the text is shorter than [p_max_size]. *)
Theorem short_text_is_copied (obj : scroll) (buf : list ascii) (p_max_size : Z) :
  let txt := evaluated buf in
  In NUL buf ->
  Z.of_nat (length buf) < 2 ^ 32 ->
  printable SPECIAL_CHAR txt <= show obj ->
  0 <= p_max_size <= INT_MAX ->
  print_scroll SPECIAL_CHAR X11 obj buf p_max_size =
    Ok (obj,
        mkOutput (if p_max_size =? 0 then []
                  else firstn (Z.to_nat (p_max_size - 1)) txt ++ [NUL])
                 None)
  /\ (Z.of_nat (length txt) < p_max_size ->
      print_scroll SPECIAL_CHAR X11 obj buf p_max_size =
        Ok (obj, mkOutput (txt ++ [NUL]) None)).
Proof.
  intros txt Hin Hlen Hshort Hcap. unfold txt in *. clear txt.
  assert (Hcap64 : 0 <= p_max_size < 2 ^ 64) by (unfold INT_MAX in Hcap; lia).
  destruct (join_lines_terminated buf Hin Hlen) as (junk & Hjoin).
  pose proof (evaluated_no_NUL buf) as Hnn.
  pose proof (printable_bounds (evaluated buf)) as Hp.
  pose proof (c_str_length_lt buf Hin) as Hl.
  rewrite evaluated_length in Hp.
  assert (Hrun : print_scroll SPECIAL_CHAR X11 obj buf p_max_size =
                 Ok (obj,
                     mkOutput (if p_max_size =? 0 then []
                               else firstn (Z.to_nat (p_max_size - 1)) (evaluated buf)
                                    ++ [NUL])
                              None)).
  { unfold print_scroll. rewrite Hjoin. cbn [bind].
    unfold strlen. rewrite (c_str_app_NUL _ junk Hnn).
    fold (printable SPECIAL_CHAR (evaluated buf)).
    rewrite u64_small by lia.
    destruct (Z.leb_spec (printable SPECIAL_CHAR (evaluated buf)) (show obj)); [|lia].
    unfold snprintf_s.
    rewrite (c_str_app_NUL _ junk Hnn), (u64_small _ Hcap64). reflexivity. }
  split; [exact Hrun|].
  intros Hfit. rewrite Hrun.
  destruct (Z.eqb_spec p_max_size 0) as [E|_]; [lia|].
  rewrite firstn_all2 by lia. reflexivity.
Qed.

(** *** The loops of the scrolling path *)

Lemma skip_colorchanges_run (s junk : list ascii) :
  ~ In NUL s ->
  forall start0, 0 <= start0 -> start0 + Z.of_nat (length s) < 2 ^ 32 ->
  skip_colorchanges SPECIAL_CHAR (s ++ NUL :: junk) start0 =
  Ok (start0 + Z.of_nat (marker_run SPECIAL_CHAR s)).
Proof.
  destruct reserved as (HN & _).
  induction s as [|c t IH]; cbn [app skip_colorchanges marker_run In length];
    intros Hnn start0 H0 Hlt.
  - destruct (Ascii.eqb_spec NUL SPECIAL_CHAR) as [E|_]; [congruence|].
    now rewrite Z.add_0_r.
  - unfold is_marker.
    destruct (Ascii.eqb_spec c SPECIAL_CHAR) as [->|Hc].
    + rewrite u32_small by lia. rewrite IH by (tauto || lia).
      f_equal. lia.
    + now rewrite Z.add_0_r.
Qed.

(** The window loop on a text that ends before [shw] characters other than
    markers are stored: it copies the rest of the text and its terminator,
    and leaves through the [return]. *)
Lemma fill_window_short (w junk : list ascii) (shw : Z) :
  ~ In NUL w ->
  forall j visib p,
    0 <= visib <= j ->
    j + Z.of_nat (length w) < 2 ^ 32 ->
    0 <= shw -> shw + visib + markers SPECIAL_CHAR w < 2 ^ 32 ->
    printable SPECIAL_CHAR w < shw - (j - visib) ->
    fill_window SPECIAL_CHAR shw (w ++ NUL :: junk) j visib p =
    Ok (HitNul (p ++ w ++ [NUL])).
Proof.
  induction w as [|c t IH]; intros Hnn j visib p Hv Hj Hs Hsv Hshort;
    cbn [app fill_window].
  - rewrite markers_nil in Hsv. unfold printable in Hshort.
    rewrite markers_nil in Hshort. cbn [length] in Hshort.
    rewrite u32_small by lia.
    destruct (Z.ltb_spec j (shw + visib)); [|lia].
    reflexivity.
  - rewrite markers_cons in Hsv. rewrite printable_cons in Hshort.
    pose proof (markers_bounds t) as Hm.
    pose proof (printable_bounds t) as Hp.
    cbn [length In] in *.
    rewrite (u32_small (shw + visib)) by (destruct (c =? SPECIAL_CHAR)%char; lia).
    destruct (Z.ltb_spec j (shw + visib));
      [|destruct (c =? SPECIAL_CHAR)%char; lia].
    destruct (Ascii.eqb_spec c NUL) as [->|Hc]; [tauto|].
    rewrite (u32_small (j + 1)) by lia.
    destruct (c =? SPECIAL_CHAR)%char.
    + rewrite (u32_small (visib + 1)) by lia.
      rewrite IH by (tauto || lia).
      now rewrite <- app_assoc.
    + rewrite IH by (tauto || lia).
      now rewrite <- app_assoc.
Qed.

(** The steps of a call up to the window loop, for a text longer than
    [show]: the first loop, the test for a short text, and the markers
    skipped at the cursor. *)
Ltac enter_scrolling_path junk Hjoin Hnn Hnn_skip :=
  unfold print_scroll; rewrite Hjoin; cbn [bind];
  unfold strlen at 1; rewrite (c_str_app_NUL _ junk Hnn);
  match goal with
  | |- context [Z.of_nat (length ?t) - markers ?m ?t] => fold (printable m t)
  end;
  rewrite u64_small by lia;
  match goal with
  | |- context [?a <=? ?b] => destruct (Z.leb_spec a b); [lia|]
  end;
  rewrite skipn_app_exact by lia;
  rewrite skip_colorchanges_run
    by (try apply Hnn_skip; try rewrite length_skipn; lia);
  cbn [bind].

(** *** The window that reaches the end of the text *)

(** The call whose window reaches the terminator. *)
Lemma print_scroll_at_tail
    (obj : scroll) (buf : list ascii) (p_max_size : Z) :
  let txt := evaluated buf in
  let cursor :=
    start obj + Z.of_nat (marker_run SPECIAL_CHAR (skipn (Z.to_nat (start obj)) txt)) in
  let window := skipn (Z.to_nat cursor) txt in
  In NUL buf ->
  Z.of_nat (length buf) < 2 ^ 32 ->
  0 <= start obj <= Z.of_nat (length txt) ->
  show obj < printable SPECIAL_CHAR txt ->
  printable SPECIAL_CHAR window < show obj ->
  print_scroll SPECIAL_CHAR X11 obj buf p_max_size =
  Ok (set_start obj cursor, mkOutput (window ++ [NUL]) None).
Proof.
  intros txt cursor window Hin Hlen Hstart Hlong Hshort.
  destruct (join_lines_terminated buf Hin Hlen) as (junk & Hjoin).
  pose proof (evaluated_no_NUL buf) as Hnn. fold txt in Hnn, Hjoin.
  pose proof (printable_bounds txt) as Hp.
  pose proof (printable_bounds window) as Hpw.
  pose proof (c_str_length_lt buf Hin) as Hl.
  pose proof (evaluated_length buf) as Hel. fold txt in Hel.
  pose proof (marker_run_le (skipn (Z.to_nat (start obj)) txt)) as Hrun.
  rewrite length_skipn in Hrun.
  assert (Hnn_skip : forall n, ~ In NUL (skipn n txt)).
  { intros n H. apply Hnn. rewrite <- (firstn_skipn n txt).
    apply in_or_app. now right. }
  enter_scrolling_path junk Hjoin Hnn Hnn_skip. fold cursor.
  rewrite skipn_app_exact by (unfold cursor; lia). fold window.
  rewrite (fill_window_short window junk (show obj)).
  - reflexivity.
  - apply Hnn_skip.
  - lia.
  - unfold window. rewrite length_skipn. unfold cursor. lia.
  - lia.
  - pose proof (markers_split (Z.to_nat cursor) txt) as Hms. fold window in Hms.
    pose proof (markers_bounds (firstn (Z.to_nat cursor) txt)).
    unfold printable in Hlong. lia.
  - lia.
Qed.

(** C10.  On the scrolling path, when fewer than [show] characters other than
    markers lie between the cursor (after the markers at the cursor were
    skipped) and the terminator, the call stores just these characters and
    the terminator: no padding, no markers in front or behind, no call of
    [new_fg]; and the cursor stays where the skipping left it, [step] is not
    added. *)
Theorem window_reaching_end_returns_early
    (obj : scroll) (buf : list ascii) (p_max_size : Z) :
  let txt := evaluated buf in
  let cursor :=
    start obj + Z.of_nat (marker_run SPECIAL_CHAR (skipn (Z.to_nat (start obj)) txt)) in
  let window := skipn (Z.to_nat cursor) txt in
  In NUL buf ->
  Z.of_nat (length buf) < 2 ^ 32 ->
  0 <= start obj <= Z.of_nat (length txt) ->
  show obj < printable SPECIAL_CHAR txt ->
  printable SPECIAL_CHAR window < show obj ->
  print_scroll SPECIAL_CHAR X11 obj buf p_max_size =
    Ok (set_start obj cursor, mkOutput (window ++ [NUL]) None)
  /\ printable SPECIAL_CHAR window < show obj
  /\ start (set_start obj cursor) = cursor.
Proof.
  intros txt cursor window Hin Hlen Hstart Hlong Hshort.
  split; [|split; [exact Hshort|reflexivity]].
  now apply print_scroll_at_tail.
Qed.

Lemma marker_run_skipped (t : list ascii) :
  marker_run SPECIAL_CHAR (skipn (marker_run SPECIAL_CHAR t) t) = O.
Proof.
  induction t as [|c t IH]; [reflexivity|]. cbn [marker_run].
  destruct (is_marker SPECIAL_CHAR c) eqn:E; cbn [skipn]; [exact IH|].
  cbn [marker_run]. now rewrite E.
Qed.

(** X19.  After a call whose window reached the end of the text every
    further call on the same text does the same: the cursor never moves
    again and the same characters are stored each time. *)
Lemma scroll_stays_at_tail
    (obj : scroll) (buf : list ascii) (p_max_size : Z) (n : nat) :
  let txt := evaluated buf in
  let cursor :=
    start obj + Z.of_nat (marker_run SPECIAL_CHAR (skipn (Z.to_nat (start obj)) txt)) in
  let window := skipn (Z.to_nat cursor) txt in
  In NUL buf ->
  Z.of_nat (length buf) < 2 ^ 32 ->
  0 <= start obj <= Z.of_nat (length txt) ->
  show obj < printable SPECIAL_CHAR txt ->
  printable SPECIAL_CHAR window < show obj ->
  print_scroll_n SPECIAL_CHAR X11 (S n) obj buf p_max_size =
  Ok (set_start obj cursor, repeat (mkOutput (window ++ [NUL]) None) (S n)).
Proof.
  intros txt cursor window Hin Hlen Hstart Hlong Hshort.
  pose proof (marker_run_le (skipn (Z.to_nat (start obj)) txt)) as Hrun.
  rewrite length_skipn in Hrun.
  assert (Hcur : 0 <= cursor <= Z.of_nat (length txt)) by (unfold cursor; lia).
  assert (Hfix : marker_run SPECIAL_CHAR (skipn (Z.to_nat cursor) txt) = O).
  { unfold cursor. rewrite Z2Nat.inj_add, Nat2Z.id by lia.
    rewrite Nat.add_comm, <- skipn_skipn. apply marker_run_skipped. }
  assert (Hagain :
    print_scroll SPECIAL_CHAR X11 (set_start obj cursor) buf p_max_size =
    Ok (set_start obj cursor, mkOutput (window ++ [NUL]) None)).
  { pose proof (print_scroll_at_tail (set_start obj cursor) buf p_max_size) as H.
    cbn [set_start start show] in H. fold txt in H.
    rewrite Hfix, Z.add_0_r in H. fold window in H.
    now apply H. }
  assert (Hrest : forall k,
    print_scroll_n SPECIAL_CHAR X11 k (set_start obj cursor) buf p_max_size =
    Ok (set_start obj cursor, repeat (mkOutput (window ++ [NUL]) None) k)).
  { induction k as [|k IH]; [reflexivity|].
    cbn [print_scroll_n]. rewrite Hagain. cbn [bind]. rewrite IH. reflexivity. }
  cbn [print_scroll_n].
  rewrite (print_scroll_at_tail obj buf p_max_size Hin Hlen Hstart Hlong Hshort).
  cbn [bind]. fold txt cursor window. rewrite Hrest. reflexivity.
Qed.

(** *** The window that lies inside the text *)

Lemma markers_repeat (k : nat) :
  markers SPECIAL_CHAR (repeat SPECIAL_CHAR k) = Z.of_nat k.
Proof.
  induction k as [|k IH]; [reflexivity|].
  cbn [repeat]. rewrite markers_cons, IH, Ascii.eqb_refl. lia.
Qed.

Lemma printable_app (s t : list ascii) :
  printable SPECIAL_CHAR (s ++ t) = printable SPECIAL_CHAR s + printable SPECIAL_CHAR t.
Proof. unfold printable. rewrite length_app, markers_app. lia. Qed.

Lemma printable_repeat (k : nat) :
  printable SPECIAL_CHAR (repeat SPECIAL_CHAR k) = 0.
Proof. unfold printable. rewrite markers_repeat, repeat_length. lia. Qed.

Lemma window_of_prefix (s : list ascii) :
  forall k, exists r, s = window_of SPECIAL_CHAR s k ++ r.
Proof.
  induction s as [|c t IH]; intros k; [now exists []|].
  destruct k as [|k]; [now exists (c :: t)|]. cbn [window_of].
  destruct (IH (if is_marker SPECIAL_CHAR c then S k else k)) as (r & Hr).
  exists r. cbn [app]. now rewrite <- Hr.
Qed.

Lemma window_of_printable (s : list ascii) :
  forall k, Z.of_nat k <= printable SPECIAL_CHAR s ->
  printable SPECIAL_CHAR (window_of SPECIAL_CHAR s k) = Z.of_nat k.
Proof.
  induction s as [|c t IH]; intros k Hk.
  - unfold printable in Hk. rewrite markers_nil in Hk. cbn [length] in Hk.
    destruct k; [reflexivity|lia].
  - destruct k as [|k]; [reflexivity|]. cbn [window_of].
    rewrite printable_cons in Hk |- *. unfold is_marker.
    destruct (c =? SPECIAL_CHAR)%char; rewrite IH; lia.
Qed.

Lemma count_front_markers (s : list ascii) :
  forall n, 0 <= n -> n + markers SPECIAL_CHAR s < 2 ^ 32 ->
  count_front SPECIAL_CHAR s n = n + markers SPECIAL_CHAR s.
Proof.
  induction s as [|c t IH]; intros n Hn Hlt; cbn [count_front].
  - rewrite markers_nil. lia.
  - rewrite markers_cons in Hlt |- *. pose proof (markers_bounds t).
    destruct (c =? SPECIAL_CHAR)%char.
    + rewrite u32_small by lia. rewrite IH; lia.
    + rewrite IH; lia.
Qed.

(** The window loop on a text that holds the [show] characters asked for:
    it stores the window and leaves by its condition. *)
Lemma fill_window_fits (s junk : list ascii) (shw : Z) :
  ~ In NUL s ->
  forall j visib p k,
    0 <= visib <= j ->
    j + Z.of_nat (length s) < 2 ^ 32 ->
    shw + visib + markers SPECIAL_CHAR s < 2 ^ 32 ->
    Z.of_nat k = shw - (j - visib) ->
    Z.of_nat k <= printable SPECIAL_CHAR s ->
    fill_window SPECIAL_CHAR shw (s ++ NUL :: junk) j visib p =
    Ok (Filled (p ++ window_of SPECIAL_CHAR s k)
               (j + Z.of_nat (length (window_of SPECIAL_CHAR s k)))
               (visib + markers SPECIAL_CHAR (window_of SPECIAL_CHAR s k))).
Proof.
  induction s as [|c t IH]; intros Hnn j visib p k Hv Hj Hsv Hk Hfit.
  - unfold printable in Hfit. rewrite markers_nil in Hfit, Hsv.
    cbn [length] in Hfit. assert (k = O) by lia. subst k.
    cbn [app fill_window window_of length]. rewrite markers_nil.
    rewrite u32_small by lia.
    destruct (Z.ltb_spec j (shw + visib)); [lia|].
    now rewrite app_nil_r, !Z.add_0_r.
  - pose proof (markers_bounds t) as Hm.
    rewrite markers_cons in Hsv. rewrite printable_cons in Hfit.
    cbn [length In] in *. cbn [app fill_window].
    rewrite (u32_small (shw + visib)) by (destruct (c =? SPECIAL_CHAR)%char; lia).
    destruct k as [|k].
    + destruct (Z.ltb_spec j (shw + visib)); [lia|].
      cbn [window_of length]. rewrite markers_nil.
      now rewrite app_nil_r, !Z.add_0_r.
    + destruct (Z.ltb_spec j (shw + visib)); [|lia].
      destruct (Ascii.eqb_spec c NUL) as [->|Hc]; [tauto|].
      rewrite (u32_small (j + 1)) by lia.
      cbn [window_of]. unfold is_marker. rewrite markers_cons. cbn [length].
      destruct (c =? SPECIAL_CHAR)%char.
      * rewrite (u32_small (visib + 1)) by lia.
        rewrite (IH ltac:(tauto) (j + 1) (visib + 1) (p ++ [c]) (S k)) by lia.
        rewrite <- app_assoc. cbn [app]. do 2 f_equal; lia.
      * rewrite (IH ltac:(tauto) (j + 1) visib (p ++ [c]) k) by lia.
        rewrite <- app_assoc. cbn [app]. do 2 f_equal; lia.
Qed.

(** What is known of a window that lies inside the text. *)
Lemma window_inside_facts (txt : list ascii) (cursor shw : Z) :
  let rest := skipn (Z.to_nat cursor) txt in
  let win := window_of SPECIAL_CHAR rest (Z.to_nat shw) in
  let front := markers SPECIAL_CHAR (firstn (Z.to_nat cursor) txt) in
  0 <= cursor <= Z.of_nat (length txt) ->
  0 <= shw <= printable SPECIAL_CHAR rest ->
  (exists rest2, rest = win ++ rest2)
  /\ printable SPECIAL_CHAR win = shw
  /\ Z.of_nat (length win) = shw + markers SPECIAL_CHAR win
  /\ 0 <= front
  /\ 0 <= markers SPECIAL_CHAR win
  /\ front + markers SPECIAL_CHAR win <= markers SPECIAL_CHAR txt
  /\ (forall c, In c win -> In c txt).
Proof.
  intros rest win front Hcur Hshw.
  destruct (window_of_prefix rest (Z.to_nat shw)) as (rest2 & Hwin). fold win in Hwin.
  pose proof (window_of_printable rest (Z.to_nat shw) ltac:(lia)) as Hpw.
  fold win in Hpw. rewrite Z2Nat.id in Hpw by lia.
  pose proof (markers_split (Z.to_nat cursor) txt) as Hms.
  fold rest in Hms. fold front in Hms.
  pose proof (markers_bounds (firstn (Z.to_nat cursor) txt)) as Hmf. fold front in Hmf.
  pose proof (markers_bounds win) as Hmw.
  pose proof (markers_bounds rest2) as Hmr.
  assert (Hmrest : markers SPECIAL_CHAR rest =
                   markers SPECIAL_CHAR win + markers SPECIAL_CHAR rest2)
    by (rewrite Hwin at 1; apply markers_app).
  split; [now exists rest2|].
  split; [exact Hpw|].
  split; [unfold printable in Hpw; lia|].
  split; [lia|]. split; [lia|]. split; [lia|].
  intros c Hc. rewrite <- (firstn_skipn (Z.to_nat cursor) txt). fold rest.
  rewrite Hwin. apply in_or_app. right. apply in_or_app. now left.
Qed.

(** The call whose window lies inside the text, up to the test of the byte
    at the new cursor. *)
Lemma print_scroll_inside_text
    (obj : scroll) (buf : list ascii) (p_max_size : Z) :
  let txt := evaluated buf in
  let cursor := cursor_after_skip SPECIAL_CHAR txt (start obj) in
  let next := u32 (cursor + step obj) in
  In NUL buf ->
  Z.of_nat (length buf) < 2 ^ 32 ->
  0 <= start obj <= Z.of_nat (length txt) ->
  0 <= show obj < printable SPECIAL_CHAR txt ->
  show obj <= printable SPECIAL_CHAR (skipn (Z.to_nat cursor) txt) ->
  print_scroll SPECIAL_CHAR X11 obj buf p_max_size =
  (c <- read (txt ++ skipn (length (c_str buf)) buf) next ;;
   Ok (set_start obj (if (c =? NUL)%char then 0 else next),
       mkOutput (slice_at SPECIAL_CHAR txt cursor (show obj) ++ [NUL])
                (if X11 then Some (resetcolor obj) else None))).
Proof.
  intros txt cursor next Hin Hlen Hstart Hshow Hfit.
  destruct (terminated_split buf Hin) as (junk & Hj). rewrite Hj.
  pose proof (evaluated_no_NUL buf) as Hnn. fold txt in Hnn.
  pose proof (printable_bounds txt) as Hp.
  pose proof (markers_bounds txt) as Hmt.
  pose proof (c_str_length_lt buf Hin) as Hl.
  pose proof (evaluated_length buf) as Hel. fold txt in Hel.
  assert (Hjoin : join_lines SPECIAL_CHAR buf 0 =
                  Ok (txt ++ NUL :: junk, markers SPECIAL_CHAR txt)).
  { rewrite <- Hj. unfold txt.
    rewrite (join_lines_evaluated buf Hin 0) by (fold txt; lia). reflexivity. }
  pose proof (marker_run_le (skipn (Z.to_nat (start obj)) txt)) as Hrun.
  rewrite length_skipn in Hrun.
  assert (Hnn_skip : forall n, ~ In NUL (skipn n txt)).
  { intros n H. apply Hnn. rewrite <- (firstn_skipn n txt).
    apply in_or_app. now right. }
  assert (Hcur : 0 <= cursor <= Z.of_nat (length txt))
    by (unfold cursor, cursor_after_skip; lia).
  destruct (window_inside_facts txt cursor (show obj) Hcur ltac:(lia))
    as (_ & Hpw & Hlw & Hf0 & Hw0 & Hfw & Hsub).
  unfold slice_at.
  set (rest := skipn (Z.to_nat cursor) txt) in *.
  set (win := window_of SPECIAL_CHAR rest (Z.to_nat (show obj))) in *.
  set (front := markers SPECIAL_CHAR (firstn (Z.to_nat cursor) txt)) in *.
  set (behind := markers SPECIAL_CHAR txt - front - markers SPECIAL_CHAR win).
  assert (Hlrest : length rest = (length txt - Z.to_nat cursor)%nat)
    by (unfold rest; apply length_skipn).
  assert (Hnnw : ~ In NUL win) by (intros H; apply Hnn, Hsub, H).
  assert (Hlt : show obj + markers SPECIAL_CHAR txt < Z.of_nat (length txt))
    by (unfold printable in Hshow; lia).
  pose proof (markers_split (Z.to_nat cursor) txt) as Hms.
  fold rest in Hms. fold front in Hms.
  pose proof (markers_bounds rest) as Hmrest.
  enter_scrolling_path junk Hjoin Hnn Hnn_skip.
  fold (cursor_after_skip SPECIAL_CHAR txt (start obj)). fold cursor.
  rewrite skipn_app_exact by lia. fold rest.
  rewrite (fill_window_fits rest junk (show obj) (Hnn_skip _) 0 0 []
             (Z.to_nat (show obj))) by lia.
  fold win. cbn [bind app]. rewrite !Z.add_0_l.
  assert (Hpad : pad_window (show obj) (Z.of_nat (length win))
                   (markers SPECIAL_CHAR win) win = (win, Z.of_nat (length win))).
  { unfold pad_window. rewrite u32_small by lia.
    replace (show obj + markers SPECIAL_CHAR win - Z.of_nat (length win)) with 0 by lia.
    cbn [Z.to_nat repeat]. rewrite app_nil_r. f_equal. lia. }
  rewrite Hpad.
  assert (Hfront : count_front SPECIAL_CHAR
                     (firstn (Z.to_nat cursor) (txt ++ NUL :: junk)) 0 = front).
  { rewrite firstn_app. replace (Z.to_nat cursor - length txt)%nat with O by lia.
    cbn [firstn]. rewrite app_nil_r.
    rewrite count_front_markers by (fold front; lia). reflexivity. }
  rewrite Hfront.
  assert (Hsl : strlen (win ++ [NUL]) = Z.of_nat (length win))
    by (unfold strlen; now rewrite (c_str_app_NUL win [] Hnnw)).
  rewrite Hsl, (c_str_app_NUL win [] Hnnw).
  fold behind. rewrite (u32_small behind) by (unfold behind; lia).
  rewrite u64_small by lia.
  destruct (Z.ltb_spec
              (Z.of_nat (length win) + 1 + markers SPECIAL_CHAR txt
               - markers SPECIAL_CHAR win)
              (front + Z.of_nat (length win) + behind + 1)) as [Hbad|_];
    [unfold behind in Hbad; lia|].
  fold next. rewrite <- !app_assoc. reflexivity.
Qed.

(** The byte at a position of the evaluated text, or just behind it. *)
Lemma read_inside_text (buf : list ascii) (i : Z) :
  let txt := evaluated buf in
  In NUL buf ->
  0 <= i <= Z.of_nat (length txt) ->
  exists c,
    read (txt ++ skipn (length (c_str buf)) buf) i = Ok c
    /\ (c =? NUL)%char = (i =? Z.of_nat (length txt)).
Proof.
  intros txt Hin Hi.
  destruct (terminated_split buf Hin) as (junk & ->).
  pose proof (evaluated_no_NUL buf) as Hnn. fold txt in Hnn.
  unfold read. destruct (Z.eqb_spec i (Z.of_nat (length txt))) as [E|E].
  - exists NUL. rewrite nth_error_app2 by lia.
    replace (Z.to_nat i - length txt)%nat with O by lia. now split.
  - rewrite nth_error_app1 by lia.
    destruct (nth_error txt (Z.to_nat i)) as [c|] eqn:En.
    + exists c. split; [reflexivity|].
      destruct (Ascii.eqb_spec c NUL) as [->|_]; [|reflexivity].
      exfalso. apply Hnn. eapply nth_error_In, En.
    + apply nth_error_None in En. lia.
Qed.

Lemma visible_app (s t : list ascii) :
  visible SPECIAL_CHAR (s ++ t) = visible SPECIAL_CHAR s ++ visible SPECIAL_CHAR t.
Proof. apply filter_app. Qed.

Lemma visible_repeat (k : nat) : visible SPECIAL_CHAR (repeat SPECIAL_CHAR k) = [].
Proof.
  induction k as [|k IH]; [reflexivity|].
  cbn [repeat visible filter]. unfold is_marker. rewrite Ascii.eqb_refl. exact IH.
Qed.

Lemma visible_window_of (s : list ascii) :
  forall k, visible SPECIAL_CHAR (window_of SPECIAL_CHAR s k) =
            firstn k (visible SPECIAL_CHAR s).
Proof.
  induction s as [|c t IH]; intros k; [now destruct k|].
  destruct k as [|k]; [reflexivity|].
  cbn [window_of visible filter].
  destruct (is_marker SPECIAL_CHAR c); cbn [negb firstn]; [apply IH|].
  f_equal. apply IH.
Qed.

Lemma evaluated_no_newline (buf : list ascii) : ~ In newline (evaluated buf).
Proof.
  unfold evaluated. intros H. apply in_map_iff in H as (c & E & _).
  destruct (Ascii.eqb_spec c newline); [discriminate|congruence].
Qed.

(** What the slice of a window inside the text holds. *)
Lemma slice_at_counts (txt : list ascii) (cursor shw : Z) :
  let slice := slice_at SPECIAL_CHAR txt cursor shw in
  0 <= cursor <= Z.of_nat (length txt) ->
  0 <= shw <= printable SPECIAL_CHAR (skipn (Z.to_nat cursor) txt) ->
  printable SPECIAL_CHAR slice = shw
  /\ markers SPECIAL_CHAR slice = markers SPECIAL_CHAR txt
  /\ visible SPECIAL_CHAR slice =
     firstn (Z.to_nat shw) (visible SPECIAL_CHAR (skipn (Z.to_nat cursor) txt))
  /\ (forall c, In c slice -> c = SPECIAL_CHAR \/ In c txt).
Proof.
  intros slice Hcur Hshw.
  destruct (window_inside_facts txt cursor shw Hcur Hshw)
    as (_ & Hpw & Hlw & Hf0 & Hw0 & Hfw & Hsub).
  unfold slice, slice_at. repeat split.
  - rewrite !printable_app, !printable_repeat. lia.
  - rewrite !markers_app, !markers_repeat. rewrite !Z2Nat.id by lia. lia.
  - rewrite !visible_app, !visible_repeat, app_nil_r. cbn [app].
    apply visible_window_of.
  - intros c Hc. apply in_app_or in Hc as [Hc|Hc];
      [left; eapply repeat_spec, Hc|].
    apply in_app_or in Hc as [Hc|Hc]; [right; now apply Hsub|].
    left. eapply repeat_spec, Hc.
Qed.

(** X1.  Where the window lies inside the text, the call stores the markers
    in front of the cursor, the window, and the markers behind it: [show]
    characters other than markers, and as many markers as the text holds;
    [new_fg] is called when conky is built for X11; and the cursor moves on
    by [step], back to 0 when it lands on the terminator. *)
Theorem window_inside_text_slice
    (obj : scroll) (buf : list ascii) (p_max_size : Z) :
  let txt := evaluated buf in
  let cursor :=
    start obj + Z.of_nat (marker_run SPECIAL_CHAR (skipn (Z.to_nat (start obj)) txt)) in
  let win := window_of SPECIAL_CHAR (skipn (Z.to_nat cursor) txt) (Z.to_nat (show obj)) in
  let front := markers SPECIAL_CHAR (firstn (Z.to_nat cursor) txt) in
  let behind := markers SPECIAL_CHAR txt - front - markers SPECIAL_CHAR win in
  let slice :=
    repeat SPECIAL_CHAR (Z.to_nat front) ++ win ++ repeat SPECIAL_CHAR (Z.to_nat behind) in
  let next := u32 (cursor + step obj) in
  In NUL buf ->
  Z.of_nat (length buf) < 2 ^ 32 ->
  0 <= start obj <= Z.of_nat (length txt) ->
  0 <= show obj < printable SPECIAL_CHAR txt ->
  show obj <= printable SPECIAL_CHAR (skipn (Z.to_nat cursor) txt) ->
  next <= Z.of_nat (length txt) ->
  print_scroll SPECIAL_CHAR X11 obj buf p_max_size =
    Ok (set_start obj (if next =? Z.of_nat (length txt) then 0 else next),
        mkOutput (slice ++ [NUL]) (if X11 then Some (resetcolor obj) else None))
  /\ printable SPECIAL_CHAR slice = show obj
  /\ markers SPECIAL_CHAR slice = markers SPECIAL_CHAR txt.
Proof.
  intros txt cursor win front behind slice next Hin Hlen Hstart Hshow Hfit Hnext.
  pose proof (marker_run_le (skipn (Z.to_nat (start obj)) txt)) as Hrun.
  rewrite length_skipn in Hrun.
  assert (Hcur : 0 <= cursor <= Z.of_nat (length txt)) by (unfold cursor; lia).
  pose proof (u32_range (cursor + step obj)) as Hnr. fold next in Hnr.
  destruct (slice_at_counts txt cursor (show obj) Hcur ltac:(lia)) as (Hp & Hm & _).
  split; [|split; [exact Hp|exact Hm]].
  pose proof (print_scroll_inside_text obj buf p_max_size Hin Hlen Hstart Hshow Hfit)
    as Hcall.
  destruct (read_inside_text buf next Hin ltac:(fold txt; lia)) as (c & Hr & Hc).
  unfold cursor_after_skip, slice_at in Hcall. cbv zeta in Hcall, Hr, Hc.
  unfold slice, behind, front, win, next, cursor, txt in *.
  rewrite Hcall, Hr. cbn [bind]. rewrite Hc. reflexivity.
Qed.

(** X2.  Where the window lies inside the text, the characters the slice
    shows are the [show] characters other than markers that follow the
    cursor in the text, in their order. *)
Theorem slice_shows_next_characters
    (obj obj' : scroll) (o : output) (buf : list ascii) (p_max_size : Z) :
  let txt := evaluated buf in
  let cursor := cursor_after_skip SPECIAL_CHAR txt (start obj) in
  In NUL buf ->
  Z.of_nat (length buf) < 2 ^ 32 ->
  0 <= start obj <= Z.of_nat (length txt) ->
  0 <= show obj < printable SPECIAL_CHAR txt ->
  show obj <= printable SPECIAL_CHAR (skipn (Z.to_nat cursor) txt) ->
  print_scroll SPECIAL_CHAR X11 obj buf p_max_size = Ok (obj', o) ->
  visible SPECIAL_CHAR (c_str (written o)) =
  firstn (Z.to_nat (show obj))
    (visible SPECIAL_CHAR (skipn (Z.to_nat cursor) txt)).
Proof.
  intros txt cursor Hin Hlen Hstart Hshow Hfit Hcall.
  pose proof (marker_run_le (skipn (Z.to_nat (start obj)) txt)) as Hrun.
  rewrite length_skipn in Hrun.
  assert (Hcur : 0 <= cursor <= Z.of_nat (length txt))
    by (unfold cursor, cursor_after_skip; lia).
  destruct (slice_at_counts txt cursor (show obj) Hcur ltac:(lia))
    as (_ & _ & Hvis & Hsub).
  rewrite (print_scroll_inside_text obj buf p_max_size Hin Hlen Hstart Hshow Hfit)
    in Hcall.
  fold txt cursor in Hcall.
  destruct (read _ _) as [c|e]; cbn [bind] in Hcall; [|discriminate].
  injection Hcall as _ <-. cbn [written].
  rewrite c_str_app_NUL; [exact Hvis|].
  intros H. apply Hsub in H as [H|H].
  - destruct reserved as (HN & _). congruence.
  - now apply (evaluated_no_NUL buf).
Qed.

(** X3.  Where the window lies inside the text, the call stores [show]
    bytes, one byte for every marker of the text, and the terminator,
    whatever [p_max_size] is. *)
Theorem slice_length_is_show_and_markers
    (obj obj' : scroll) (o : output) (buf : list ascii) (p_max_size : Z) :
  let txt := evaluated buf in
  let cursor := cursor_after_skip SPECIAL_CHAR txt (start obj) in
  In NUL buf ->
  Z.of_nat (length buf) < 2 ^ 32 ->
  0 <= start obj <= Z.of_nat (length txt) ->
  0 <= show obj < printable SPECIAL_CHAR txt ->
  show obj <= printable SPECIAL_CHAR (skipn (Z.to_nat cursor) txt) ->
  print_scroll SPECIAL_CHAR X11 obj buf p_max_size = Ok (obj', o) ->
  Z.of_nat (length (written o)) = show obj + markers SPECIAL_CHAR txt + 1.
Proof.
  intros txt cursor Hin Hlen Hstart Hshow Hfit Hcall.
  pose proof (marker_run_le (skipn (Z.to_nat (start obj)) txt)) as Hrun.
  rewrite length_skipn in Hrun.
  assert (Hcur : 0 <= cursor <= Z.of_nat (length txt))
    by (unfold cursor, cursor_after_skip; lia).
  destruct (slice_at_counts txt cursor (show obj) Hcur ltac:(lia))
    as (Hp & Hm & _).
  rewrite (print_scroll_inside_text obj buf p_max_size Hin Hlen Hstart Hshow Hfit)
    in Hcall.
  fold txt cursor in Hcall.
  destruct (read _ _) as [c|e]; cbn [bind] in Hcall; [|discriminate].
  injection Hcall as _ <-. cbn [written].
  rewrite length_app. cbn [length]. unfold printable in Hp. lia.
Qed.

(** The call on a short text. *)
Lemma print_scroll_short (obj : scroll) (buf : list ascii) (p_max_size : Z) :
  In NUL buf ->
  Z.of_nat (length buf) < 2 ^ 32 ->
  printable SPECIAL_CHAR (evaluated buf) <= show obj ->
  print_scroll SPECIAL_CHAR X11 obj buf p_max_size =
  Ok (obj, mkOutput (snprintf_s p_max_size (evaluated buf)) None).
Proof.
  intros Hin Hlen Hshort.
  destruct (join_lines_terminated buf Hin Hlen) as (junk & Hjoin).
  pose proof (evaluated_no_NUL buf) as Hnn.
  pose proof (printable_bounds (evaluated buf)) as Hp.
  pose proof (c_str_length_lt buf Hin) as Hl.
  rewrite evaluated_length in Hp.
  unfold print_scroll. rewrite Hjoin. cbn [bind].
  unfold strlen. rewrite (c_str_app_NUL _ junk Hnn).
  fold (printable SPECIAL_CHAR (evaluated buf)).
  rewrite u64_small by lia.
  destruct (Z.leb_spec (printable SPECIAL_CHAR (evaluated buf)) (show obj)); [|lia].
  unfold snprintf_s.
  rewrite (c_str_app_NUL _ junk Hnn), (c_str_id _ Hnn). reflexivity.
Qed.

(** X4.  On a short text the call never stores more than [p_max_size]
    bytes: nothing for a size of 0, otherwise the first [p_max_size - 1]
    characters of the text and the terminator. *)
Theorem short_text_keeps_to_capacity
    (obj : scroll) (buf : list ascii) (p_max_size : Z) :
  let txt := evaluated buf in
  In NUL buf ->
  Z.of_nat (length buf) < 2 ^ 32 ->
  printable SPECIAL_CHAR txt <= show obj ->
  0 <= p_max_size <= INT_MAX ->
  exists o,
    print_scroll SPECIAL_CHAR X11 obj buf p_max_size = Ok (obj, o)
    /\ Z.of_nat (length (written o)) <= p_max_size
    /\ (p_max_size = 0 -> written o = [])
    /\ (0 < p_max_size ->
        written o = firstn (Z.to_nat (p_max_size - 1)) txt ++ [NUL]).
Proof.
  intros txt Hin Hlen Hshort Hp.
  assert (Hp64 : 0 <= p_max_size < 2 ^ 64) by (unfold INT_MAX in Hp; lia).
  unfold txt in *. clear txt.
  eexists. split; [apply (print_scroll_short obj buf p_max_size Hin Hlen Hshort)|].
  cbn [written].
  split; [apply (snprintf_s_bounded _ _ Hp64)|].
  unfold snprintf_s. rewrite (u64_small _ Hp64).
  rewrite (c_str_id _ (evaluated_no_NUL buf)).
  split; intros H.
  - subst p_max_size. reflexivity.
  - destruct (Z.eqb_spec p_max_size 0); [lia|reflexivity].
Qed.

(** X5.  Whatever the call stores for a cursor inside the text holds no
    line break: on a short text, at the end of the text, and inside it. *)
Theorem output_has_no_line_break
    (obj obj' : scroll) (o : output) (buf : list ascii) (p_max_size : Z) :
  In NUL buf ->
  Z.of_nat (length buf) < 2 ^ 32 ->
  0 <= start obj <= Z.of_nat (length (evaluated buf)) ->
  0 <= show obj ->
  print_scroll SPECIAL_CHAR X11 obj buf p_max_size = Ok (obj', o) ->
  ~ In newline (written o).
Proof.
  intros Hin Hlen Hstart Hshow Hcall.
  destruct reserved as (HN & Hnl & Hsep).
  pose proof (evaluated_no_newline buf) as Hnonl.
  set (txt := evaluated buf) in *.
  assert (Hsuffix : forall n, ~ In newline (skipn n txt)).
  { intros n H. apply Hnonl. rewrite <- (firstn_skipn n txt).
    apply in_or_app. now right. }
  destruct (Z.le_gt_cases (printable SPECIAL_CHAR txt) (show obj)) as [Hshort|Hlong].
  - rewrite (print_scroll_short obj buf p_max_size Hin Hlen Hshort) in Hcall.
    injection Hcall as _ <-. cbn [written]. unfold snprintf_s.
    destruct (_ =? 0); [intros []|].
    rewrite (c_str_id _ (evaluated_no_NUL buf)). fold txt.
    intros H. apply in_app_or in H as [H|[H|[]]]; [|discriminate].
    apply Hnonl. rewrite <- (firstn_skipn (Z.to_nat (u64 p_max_size - 1)) txt).
    apply in_or_app. now left.
  - pose proof (marker_run_le (skipn (Z.to_nat (start obj)) txt)) as Hrun.
    rewrite length_skipn in Hrun.
    set (cursor := cursor_after_skip SPECIAL_CHAR txt (start obj)).
    assert (Hcur : 0 <= cursor <= Z.of_nat (length txt))
      by (unfold cursor, cursor_after_skip; lia).
    destruct (Z.lt_ge_cases (printable SPECIAL_CHAR (skipn (Z.to_nat cursor) txt))
                (show obj)) as [Htail|Hfit].
    + rewrite (print_scroll_at_tail obj buf p_max_size Hin Hlen Hstart Hlong Htail)
        in Hcall.
      injection Hcall as _ <-. cbn [written].
      intros H. apply in_app_or in H as [H|[H|[]]]; [|discriminate].
      now apply Hsuffix in H.
    + destruct (slice_at_counts txt cursor (show obj) Hcur ltac:(lia))
        as (_ & _ & _ & Hsub).
      rewrite (print_scroll_inside_text obj buf p_max_size Hin Hlen Hstart
                 ltac:(fold txt; lia) ltac:(fold txt cursor; lia)) in Hcall.
      fold txt cursor in Hcall.
      destruct (read _ _) as [c|e]; cbn [bind] in Hcall; [|discriminate].
      injection Hcall as _ <-. cbn [written].
      intros H. apply in_app_or in H as [H|[H|[]]]; [|discriminate].
      apply Hsub in H as [H|H]; [congruence|now apply Hnonl].
Qed.

(** *** A text without markers *)

Lemma marker_run_plain (s : list ascii) :
  markers SPECIAL_CHAR s = 0 -> marker_run SPECIAL_CHAR s = O.
Proof.
  destruct s as [|c t]; [reflexivity|]. rewrite markers_cons. cbn [marker_run].
  unfold is_marker. pose proof (markers_bounds t).
  destruct (c =? SPECIAL_CHAR)%char; [lia|reflexivity].
Qed.

Lemma window_of_plain (s : list ascii) :
  markers SPECIAL_CHAR s = 0 ->
  forall k, window_of SPECIAL_CHAR s k = firstn k s.
Proof.
  induction s as [|c t IH]; intros Hm k; [now destruct k|].
  rewrite markers_cons in Hm. pose proof (markers_bounds t).
  destruct k as [|k]; [reflexivity|]. cbn [window_of firstn]. unfold is_marker.
  destruct (c =? SPECIAL_CHAR)%char; [lia|]. f_equal. apply IH. lia.
Qed.

Lemma markers_plain_parts (n : nat) (s : list ascii) :
  markers SPECIAL_CHAR s = 0 ->
  markers SPECIAL_CHAR (firstn n s) = 0 /\ markers SPECIAL_CHAR (skipn n s) = 0.
Proof.
  intros Hm. pose proof (markers_split n s).
  pose proof (markers_bounds (firstn n s)). pose proof (markers_bounds (skipn n s)).
  lia.
Qed.

(** One call on a text without markers, the window inside the text. *)
Lemma print_scroll_plain (obj : scroll) (buf : list ascii) (p_max_size : Z) :
  let txt := evaluated buf in
  let len := Z.of_nat (length txt) in
  let next := start obj + step obj in
  In NUL buf ->
  Z.of_nat (length buf) < 2 ^ 32 ->
  markers SPECIAL_CHAR txt = 0 ->
  0 <= start obj ->
  0 <= show obj < len ->
  start obj + show obj <= len ->
  0 <= step obj ->
  next <= len ->
  print_scroll SPECIAL_CHAR X11 obj buf p_max_size =
  Ok (set_start obj (if next =? len then 0 else next),
      mkOutput (firstn (Z.to_nat (show obj)) (skipn (Z.to_nat (start obj)) txt) ++ [NUL])
               (if X11 then Some (resetcolor obj) else None)).
Proof.
  intros txt len next Hin Hlen Hplain Hstart Hshow Hwin Hstep Hnext.
  pose proof (c_str_length_lt buf Hin) as Hl.
  pose proof (evaluated_length buf) as Hel. fold txt in Hel.
  destruct (markers_plain_parts (Z.to_nat (start obj)) txt Hplain) as (Hmf & Hms).
  assert (Hcur : cursor_after_skip SPECIAL_CHAR txt (start obj) = start obj).
  { unfold cursor_after_skip. rewrite (marker_run_plain _ Hms). lia. }
  assert (Hpt : printable SPECIAL_CHAR txt = len) by (unfold printable; lia).
  assert (Hpr : printable SPECIAL_CHAR (skipn (Z.to_nat (start obj)) txt) =
                len - start obj).
  { unfold printable. rewrite Hms, length_skipn. unfold len. lia. }
  pose proof (print_scroll_inside_text obj buf p_max_size Hin Hlen) as Hcall.
  cbv zeta in Hcall. fold txt in Hcall. rewrite Hcur in Hcall.
  rewrite Hcall by (unfold len in *; lia). clear Hcall.
  rewrite (u32_small (start obj + step obj)) by (unfold len, next in *; lia).
  fold next.
  destruct (read_inside_text buf next Hin ltac:(fold txt; unfold len, next in *; lia))
    as (c & Hr & Hc).
  fold txt in Hr, Hc. rewrite Hr. cbn [bind]. rewrite Hc. fold len.
  unfold slice_at. rewrite Hmf, (window_of_plain _ Hms), Hplain.
  destruct (markers_plain_parts (Z.to_nat (show obj))
              (skipn (Z.to_nat (start obj)) txt) Hms) as (-> & _).
  cbn [Z.sub Z.opp Z.add Z.to_nat repeat app]. rewrite app_nil_r. reflexivity.
Qed.

(** X6.  A text without markers whose length is [q] times [step], shown
    through a window no wider than [step]: [q] calls from a fresh object
    store the windows at 0, [step], twice [step], ... and bring the cursor
    back to 0, so that the next [q] calls store the same slices again. *)
Theorem plain_text_scrolls_in_a_cycle
    (obj : scroll) (buf : list ascii) (p_max_size : Z) (q : nat) :
  let txt := evaluated buf in
  let slice k :=
    mkOutput (firstn (Z.to_nat (show obj))
                (skipn (Z.to_nat (Z.of_nat k * step obj)) txt) ++ [NUL])
             (if X11 then Some (resetcolor obj) else None) in
  In NUL buf ->
  Z.of_nat (length buf) < 2 ^ 32 ->
  markers SPECIAL_CHAR txt = 0 ->
  start obj = 0 ->
  0 <= show obj <= step obj ->
  show obj < Z.of_nat (length txt) ->
  Z.of_nat (length txt) = Z.of_nat q * step obj ->
  print_scroll_n SPECIAL_CHAR X11 q obj buf p_max_size =
  Ok (obj, map slice (seq 0 q)).
Proof.
  intros txt slice Hin Hlen Hplain Hstart0 Hshow Hlong Hq.
  assert (Hstep : 0 < step obj) by nia.
  assert (HS : forall k o,
    print_scroll_n SPECIAL_CHAR X11 (S k) o buf p_max_size =
    (' (obj1, o1) <- print_scroll SPECIAL_CHAR X11 o buf p_max_size ;;
     ' (obj2, os) <- print_scroll_n SPECIAL_CHAR X11 k obj1 buf p_max_size ;;
     Ok (obj2, o1 :: os))) by reflexivity.
  assert (Hloop : forall r j, (j + S r = q)%nat ->
    print_scroll_n SPECIAL_CHAR X11 (S r) (set_start obj (Z.of_nat j * step obj))
      buf p_max_size =
    Ok (set_start obj 0, map slice (seq j (S r)))).
  { induction r as [|r IH]; intros j Hj.
    - cbn [print_scroll_n seq map].
      rewrite (print_scroll_plain (set_start obj (Z.of_nat j * step obj)) buf
                 p_max_size Hin Hlen Hplain);
        cbn [set_start start show step resetcolor]; fold txt; try nia.
      cbn [bind]. replace (Z.of_nat j * step obj + step obj)
        with (Z.of_nat (length txt)) by nia.
      rewrite Z.eqb_refl. reflexivity.
    - rewrite HS.
      rewrite (print_scroll_plain (set_start obj (Z.of_nat j * step obj)) buf
                 p_max_size Hin Hlen Hplain);
        cbn [set_start start show step resetcolor]; fold txt; try nia.
      cbn [bind].
      destruct (Z.eqb_spec (Z.of_nat j * step obj + step obj)
                  (Z.of_nat (length txt))) as [E|_]; [nia|].
      replace (Z.of_nat j * step obj + step obj)
        with (Z.of_nat (S j) * step obj) by lia.
      change (set_start (set_start obj (Z.of_nat j * step obj))
                (Z.of_nat (S j) * step obj))
        with (set_start obj (Z.of_nat (S j) * step obj)).
      rewrite (IH (S j)) by lia. reflexivity. }
  assert (Hobj : set_start obj 0 = obj)
    by (destruct obj; cbn in Hstart0 |- *; now subst).
  destruct q as [|r]; [lia|].
  specialize (Hloop r O eq_refl). cbn [Z.of_nat Z.mul] in Hloop.
  rewrite Hobj in Hloop. exact Hloop.
Qed.

(** *** Calls that keep the cursor inside the text *)


End ScrollProofs.

(** X20.  On the scrolling path [p_max_size] is never looked at: the call
    does the same for every value of it. *)
Lemma scrolling_path_never_reads_capacity
    (m : ascii) (X11 : bool) (obj : scroll) (buf b : list ascii) (cc p q : Z) :
  join_lines m buf 0 = Ok (b, cc) ->
  show obj < u64 (strlen b - cc) ->
  print_scroll m X11 obj buf p = print_scroll m X11 obj buf q.
Proof.
  intros Hj Hlong. unfold print_scroll. rewrite Hj. cbn [bind].
  destruct (Z.leb_spec (u64 (strlen b - cc)) (show obj)); [lia|reflexivity].
Qed.

(** ** Calls on the texts of the specification's examples *)

(** The marker between two shown characters keeps its place (the
    specification's P6). *)
Example marker_inside_window (X11 : bool) (junk : list ascii) (p_max_size : Z) :
  print_scroll MARK X11 (mkScroll [] 2 1 1 9)
    (buffer (chars "ab" ++ MARK :: chars "cd") junk) p_max_size =
  Ok (mkScroll [] 2 1 2 9,
      mkOutput ("b"%char :: MARK :: chars "c" ++ [NUL])
               (if X11 then Some 9 else None)).
Proof. reflexivity. Qed.

(** Line breaks in a short text are stored as separators. *)
Example lines_are_joined (X11 : bool) (junk : list ascii) :
  print_scroll MARK X11 (mkScroll [] 10 1 0 0)
    (buffer ("a"%char :: newline :: chars "b") junk) 256 =
  Ok (mkScroll [] 10 1 0 0, mkOutput (chars "a|b" ++ [NUL]) None).
Proof. reflexivity. Qed.

(** *** The window that reaches the end of the text, on "abc" *)

(** C1.  With [show = 2], the text "abc" and the cursor at 2, where two
    calls from a fresh object leave it, the call stores "c" and its
    terminator: one printable character where the width contract asks for
    two, the second a padding blank. *)
Theorem tail_window_is_not_padded (X11 : bool) (junk : list ascii) (p_max_size : Z) :
  let buf := buffer (chars "abc") junk in
  let obj := mkScroll [] 2 1 2 0 in
  (exists slices,
     print_scroll_n MARK X11 2 (set_start obj 0) buf p_max_size = Ok (obj, slices))
  /\ print_scroll MARK X11 obj buf p_max_size =
       Ok (obj, mkOutput (chars "c" ++ [NUL]) None)
  /\ printable MARK (chars "c") = 1
  /\ show obj = 2.
Proof. repeat split. eexists. reflexivity. Qed.

(** C2.  With [show = 2] and the text MARK "abc", two calls from a fresh
    object leave the cursor at 3, and the third stores "c" alone: the slice
    holds no marker while the text holds one. *)
Theorem tail_window_drops_markers (X11 : bool) (junk : list ascii) (p_max_size : Z) :
  let buf := buffer (MARK :: chars "abc") junk in
  print_scroll_n MARK X11 2 (mkScroll [] 2 1 0 0) buf p_max_size =
    Ok (mkScroll [] 2 1 3 0,
        [mkOutput (MARK :: chars "ab" ++ [NUL]) (if X11 then Some 0 else None);
         mkOutput (MARK :: chars "bc" ++ [NUL]) (if X11 then Some 0 else None)])
  /\ print_scroll MARK X11 (mkScroll [] 2 1 3 0) buf p_max_size =
       Ok (mkScroll [] 2 1 3 0, mkOutput (chars "c" ++ [NUL]) None)
  /\ markers MARK (chars "c") = 0
  /\ markers MARK (evaluated buf) = 1.
Proof. repeat split. Qed.

(** *** The capacity of the caller's buffer *)

(** C4.  With [show = 2] and the text "abc" the call stores three bytes, "ab"
    and the terminator, whatever [p_max_size] is: also when it is 2, 1
    or 0. *)
Theorem scrolling_ignores_capacity (X11 : bool) (junk : list ascii) (p_max_size : Z) :
  print_scroll MARK X11 (mkScroll [] 2 1 0 0) (buffer (chars "abc") junk) p_max_size =
    Ok (mkScroll [] 2 1 1 0,
        mkOutput (chars "ab" ++ [NUL]) (if X11 then Some 0 else None))
  /\ Z.of_nat (length (chars "ab" ++ [NUL])) = 3.
Proof. repeat split. Qed.

(** *** The cursor *)

(** C5.  With [show = 1], [step = 2] and the text "abc", the second call
    from a fresh object finds the cursor at 2 and leaves it at 4, behind the
    terminator at 3: the byte tested at 4 is what the array held before,
    here "y".  When the array ends with the terminator, the test reads
    outside it. *)
Theorem cursor_steps_over_terminator (X11 : bool) (p_max_size : Z) :
  let obj := mkScroll [] 1 2 0 0 in
  let reset := if X11 then Some 0 else None in
  print_scroll_n MARK X11 2 obj (buffer (chars "abc") (chars "xyz")) p_max_size =
    Ok (set_start obj 4,
        [mkOutput (chars "a" ++ [NUL]) reset; mkOutput (chars "c" ++ [NUL]) reset])
  /\ strlen (buffer (chars "abc") (chars "xyz")) = 3
  /\ print_scroll_n MARK X11 2 obj (buffer (chars "abc") []) p_max_size =
       Err OutOfBounds.
Proof. repeat split. Qed.

(** C9.  With [show = 2], [step = 1] and the text "abc" the cursor reaches 2
    with the second call and stays there: every later call stores "c" and
    leaves the cursor at 2.  After three calls, and after any number of
    calls, the cursor is not back at 0 and the first slice, "ab", does not
    come again. *)
Theorem scroll_sticks_at_tail (X11 : bool) (junk : list ascii) (p_max_size : Z) (n : nat) :
  print_scroll_n MARK X11 (2 + n) (mkScroll [] 2 1 0 0) (buffer (chars "abc") junk) p_max_size =
  Ok (mkScroll [] 2 1 2 0,
      mkOutput (chars "ab" ++ [NUL]) (if X11 then Some 0 else None)
      :: mkOutput (chars "bc" ++ [NUL]) (if X11 then Some 0 else None)
      :: repeat (mkOutput (chars "c" ++ [NUL]) None) n).
Proof.
  set (buf := buffer (chars "abc") junk).
  assert (unfold_S : forall k obj,
    print_scroll_n MARK X11 (S k) obj buf p_max_size =
    (' (obj1, o1) <- print_scroll MARK X11 obj buf p_max_size ;;
     ' (obj2, os) <- print_scroll_n MARK X11 k obj1 buf p_max_size ;;
     Ok (obj2, o1 :: os))) by reflexivity.
  assert (at2 : print_scroll MARK X11 (mkScroll [] 2 1 2 0) buf p_max_size =
                Ok (mkScroll [] 2 1 2 0, mkOutput (chars "c" ++ [NUL]) None))
    by reflexivity.
  assert (stuck : forall k,
    print_scroll_n MARK X11 k (mkScroll [] 2 1 2 0) buf p_max_size =
    Ok (mkScroll [] 2 1 2 0, repeat (mkOutput (chars "c" ++ [NUL]) None) k)).
  { induction k as [|k IH]; [reflexivity|].
    rewrite unfold_S, at2. cbn [bind]. rewrite IH. reflexivity. }
  assert (at0 : print_scroll MARK X11 (mkScroll [] 2 1 0 0) buf p_max_size =
                Ok (mkScroll [] 2 1 1 0,
                    mkOutput (chars "ab" ++ [NUL]) (if X11 then Some 0 else None)))
    by reflexivity.
  assert (at1 : print_scroll MARK X11 (mkScroll [] 2 1 1 0) buf p_max_size =
                Ok (mkScroll [] 2 1 2 0,
                    mkOutput (chars "bc" ++ [NUL]) (if X11 then Some 0 else None)))
    by reflexivity.
  change (2 + n)%nat with (S (S n)).
  rewrite unfold_S, at0. cbn [bind]. rewrite unfold_S, at1. cbn [bind].
  rewrite stuck. reflexivity.
Qed.

(** *** The general statements at these texts *)

Lemma MARK_marker_byte : marker_byte MARK.
Proof. repeat split; discriminate. Qed.

(** C3, the claim as stated fails: with [show = 10], the text "hi" and
    room for two bytes, the call stores "h" and the terminator, not the
    entire text; with room for none it stores nothing. *)
Lemma short_text_is_cut_to_capacity :
  printable MARK (evaluated (buffer (chars "hi") [])) <= 10
  /\ print_scroll MARK true (mkScroll [] 10 1 0 0) (buffer (chars "hi") []) 2 =
     Ok (mkScroll [] 10 1 0 0, mkOutput (chars "h" ++ [NUL]) None)
  /\ print_scroll MARK true (mkScroll [] 10 1 0 0) (buffer (chars "hi") []) 0 =
     Ok (mkScroll [] 10 1 0 0, mkOutput [] None)
  /\ chars "h" ++ [NUL] <> chars "hi" ++ [NUL].
Proof. repeat split; discriminate. Qed.

(** [show = 10], the text "hi" and room for 256 bytes: "hi" is stored and
    the cursor stays 0. *)
Lemma short_text_is_copied_witness :
  let obj := mkScroll [] 10 1 0 0 in
  let buf := buffer (chars "hi") [] in
  print_scroll MARK true obj buf 256 =
    Ok (obj,
        mkOutput (if 256 =? 0 then []
                  else firstn (Z.to_nat (256 - 1)) (evaluated buf) ++ [NUL])
                 None)
  /\ (Z.of_nat (length (evaluated buf)) < 256 ->
      print_scroll MARK true obj buf 256 =
        Ok (obj, mkOutput (evaluated buf ++ [NUL]) None)).
Proof.
  intros obj buf.
  apply (short_text_is_copied MARK true MARK_marker_byte obj buf 256).
  - cbn. tauto.
  - reflexivity.
  - vm_compute. discriminate.
  - vm_compute. split; discriminate.
Defined.

(** [show = 2], the text "abc" and the cursor at 2: "c" is stored and the
    cursor stays 2. *)
Lemma window_reaching_end_returns_early_witness :
  print_scroll MARK true (mkScroll [] 2 1 2 7) (buffer (chars "abc") []) 256 =
    Ok (mkScroll [] 2 1 2 7, mkOutput (chars "c" ++ [NUL]) None)
  /\ printable MARK (chars "c") < 2
  /\ start (mkScroll [] 2 1 2 7) = 2.
Proof.
  apply (window_reaching_end_returns_early MARK true MARK_marker_byte
           (mkScroll [] 2 1 2 7) (buffer (chars "abc") []) 256).
  - cbn. tauto.
  - reflexivity.
  - vm_compute. split; discriminate.
  - reflexivity.
  - reflexivity.
Defined.

(** ** Configuration: [parse_scroll_arg] *)

Example parse_width_step_text :
  parse_scroll_arg 7 (Some (chars "5 3 hello world")) =
  Ok (mkScroll (chars "     hello world") 5 3 0 7).
Proof. reflexivity. Qed.

Example parse_width_text :
  parse_scroll_arg 7 (Some (chars "5 hello")) =
  Ok (mkScroll (chars "     hello") 5 1 0 7).
Proof. reflexivity. Qed.

Lemma scan_ret_positive (r : scanned) :
  scan_ret r <= 0 <-> forall v n, r <> ScanOk v n.
Proof.
  destruct r; cbn [scan_ret]; split; intros H; try lia; try discriminate.
  exfalso. now apply (H v n).
Qed.

(** Digits are taken exactly when the input opens with one. *)
Lemma span_digits_head (s : list ascii) :
  match span_digits s with
  | ([], _) => head_is_digit s = false
  | (_ :: _, _) => head_is_digit s = true
  end.
Proof.
  destruct s as [|d t]; cbn [span_digits head_is_digit]; [reflexivity|].
  destruct (isdigit d); [|reflexivity].
  now destruct (span_digits t).
Qed.

(** [sscanf] stores a value exactly for the inputs that open with an
    integer. *)
Lemma sscanf_u_n_ok_iff (s : list ascii) :
  (exists v n, sscanf_u_n (c_str s) = ScanOk v n) <-> starts_with_integer s = true.
Proof.
  unfold sscanf_u_n, starts_with_integer.
  destruct (skip_space (c_str s)) as [|c t].
  - split; [intros (v & n & H)|]; discriminate.
  - assert (Hscan : forall neg s2 b,
      head_is_digit s2 = b ->
      (exists v n,
         match span_digits s2 with
         | ([], _) => ScanFail
         | (ds, s3) =>
             ScanOk (u32 (strtoul_value neg (decimal 0 ds)))
                    (Z.of_nat (length (c_str s)) - Z.of_nat (length (skip_space s3)))
         end = ScanOk v n) <-> b = true).
    { intros neg s2 b Hb. pose proof (span_digits_head s2) as Hh.
      destruct (span_digits s2) as [[|d ds] s3].
      - split; [intros (v & n & H); discriminate|congruence].
      - split; [congruence|eauto]. }
    destruct (Ascii.eqb_spec c "-") as [->|Hm]; [now apply Hscan|].
    destruct (Ascii.eqb_spec c "+") as [->|Hp]; [now apply Hscan|].
    apply Hscan. cbn [head_is_digit orb andb]. now rewrite orb_false_r.
Qed.



Lemma parse_scroll_arg_ok_inv (color : Z) (a : list ascii) (obj : scroll) :
  parse_scroll_arg color (Some a) = Ok obj ->
  start obj = 0 /\ exists n, sscanf_u_n (c_str a) = ScanOk (show obj) n.
Proof.
  unfold parse_scroll_arg.
  destruct (sscanf_u_n (c_str a)) as [| |v n]; try discriminate.
  destruct (match sscanf_u_n (skipn (Z.to_nat n) (c_str a)) with
            | ScanOk v0 n0 => (v0, n0) | _ => (1, 0) end) as [stp n2].
  destruct (char_at (c_str a) (n + n2) =? NUL)%char;
    destruct (INT_MAX <? v); try discriminate;
    intros E; injection E as <-; cbn [show start]; eauto.
Qed.

Lemma sscanf_u_n_range (s : list ascii) (v n : Z) :
  sscanf_u_n s = ScanOk v n -> 0 <= v < 2 ^ 32.
Proof.
  unfold sscanf_u_n.
  destruct (skip_space s) as [|c t]; [discriminate|].
  destruct (if (c =? "-")%char then (true, t)
            else if (c =? "+")%char then (false, t) else (false, c :: t)) as [neg s2].
  destruct (span_digits s2) as [[|d ds] s3]; [discriminate|].
  intros E. injection E as <- _. apply u32_range.
Qed.

Lemma isdigit_not_space (c : ascii) : isdigit c = true -> isspace c = false.
Proof.
  destruct c as [[] [] [] [] [] [] [] []]; cbn; intros H;
    solve [reflexivity | discriminate].
Qed.

Lemma isdigit_not_sign (c : ascii) :
  isdigit c = true -> (c =? "-")%char = false /\ (c =? "+")%char = false.
Proof.
  destruct c as [[] [] [] [] [] [] [] []]; cbn; intros H;
    solve [split; reflexivity | discriminate].
Qed.

Lemma isdigit_not_NUL (c : ascii) : isdigit c = true -> c <> NUL.
Proof. intros H ->. discriminate. Qed.

Lemma digits_c_str (w n : list ascii) :
  forallb isdigit w = true -> forallb isdigit n = true ->
  c_str (w ++ space :: n) = w ++ space :: n.
Proof.
  intros Hw Hn. apply c_str_id. intros H.
  apply in_app_or in H as [H|[H|H]]; try discriminate.
  - rewrite forallb_forall in Hw. now apply (isdigit_not_NUL NUL (Hw _ H)).
  - rewrite forallb_forall in Hn. now apply (isdigit_not_NUL NUL (Hn _ H)).
Qed.

Lemma skip_space_digits (s r : list ascii) :
  s <> [] -> forallb isdigit s = true -> skip_space (s ++ r) = s ++ r.
Proof.
  destruct s as [|c t]; [congruence|]. cbn [forallb app skip_space].
  intros _ H. apply andb_prop in H as [Hc _].
  now rewrite (isdigit_not_space c Hc).
Qed.

Lemma span_digits_app (ds r : list ascii) :
  forallb isdigit ds = true ->
  match r with d :: _ => isdigit d = false | [] => True end ->
  span_digits (ds ++ r) = (ds, r).
Proof.
  intros Hds Hr. induction ds as [|c t IH]; cbn [app].
  - destruct r as [|d r]; cbn [span_digits]; [reflexivity|]. now rewrite Hr.
  - cbn [forallb] in Hds. apply andb_prop in Hds as [Hc Ht].
    cbn [span_digits]. rewrite Hc, (IH Ht). reflexivity.
Qed.

(** [sscanf] on decimal digits followed by something that is not a digit. *)
Lemma sscanf_u_n_digits (ds r : list ascii) :
  ds <> [] -> forallb isdigit ds = true ->
  match r with d :: _ => isdigit d = false | [] => True end ->
  sscanf_u_n (ds ++ r) =
  ScanOk (u32 (strtoul_value false (decimal 0 ds)))
         (Z.of_nat (length (ds ++ r)) - Z.of_nat (length (skip_space r))).
Proof.
  intros Hne Hds Hr. unfold sscanf_u_n.
  rewrite (skip_space_digits ds r Hne Hds).
  destruct ds as [|c t]; [congruence|]. cbn [app].
  pose proof Hds as Hc. cbn [forallb] in Hc. apply andb_prop in Hc as [Hc _].
  destruct (isdigit_not_sign c Hc) as [-> ->].
  change (c :: t ++ r) with ((c :: t) ++ r).
  rewrite (span_digits_app (c :: t) r Hds Hr). reflexivity.
Qed.

(** *** Which arguments are refused *)


Lemma join_lines_fault (m : ascii) (buf : list ascii) :
  forall n e, join_lines m buf n = Err e -> e = OutOfBounds.
Proof.
  induction buf as [|c t IH]; cbn [join_lines]; intros n e.
  - intros E. now injection E as <-.
  - destruct (c =? NUL)%char; [discriminate|].
    destruct (c =? newline)%char; [|destruct (c =? m)%char].
    + destruct (join_lines m t n) as [[r k]|e'] eqn:E; cbn [bind]; [discriminate|].
      intros E'. injection E' as <-. eapply IH, E.
    + destruct (join_lines m t (u32 (n + 1))) as [[r k]|e'] eqn:E; cbn [bind];
        [discriminate|].
      intros E'. injection E' as <-. eapply IH, E.
    + destruct (join_lines m t n) as [[r k]|e'] eqn:E; cbn [bind]; [discriminate|].
      intros E'. injection E' as <-. eapply IH, E.
Qed.

Lemma skip_colorchanges_fault (m : ascii) (s : list ascii) :
  forall n e, skip_colorchanges m s n = Err e -> e = OutOfBounds.
Proof.
  induction s as [|c t IH]; cbn [skip_colorchanges]; intros n e.
  - intros E. now injection E as <-.
  - destruct (c =? m)%char; [apply IH|discriminate].
Qed.

Lemma fill_window_fault (m : ascii) (shw : Z) (s : list ascii) :
  forall j v p e, fill_window m shw s j v p = Err e -> e = OutOfBounds.
Proof.
  induction s as [|c t IH]; cbn [fill_window]; intros j v p e.
  - destruct (j <? u32 (shw + v)); [|discriminate].
    intros E. now injection E as <-.
  - destruct (j <? u32 (shw + v)); [|discriminate].
    destruct (c =? NUL)%char; [discriminate|]. apply IH.
Qed.

(** [print_scroll] has no path to [CRIT_ERR]: a run that does not complete
    stopped at a memory access outside [buf] or the allocated block. *)
Lemma print_scroll_raises_nothing
    (m : ascii) (X11 : bool) (obj : scroll) (buf : list ascii) (p_max_size : Z) (e : error) :
  print_scroll m X11 obj buf p_max_size = Err e ->
  e = OutOfBounds \/ e = HeapOverflow.
Proof.
  unfold print_scroll.
  destruct (join_lines m buf 0) as [[b cc]|e1] eqn:E1; cbn [bind].
  2:{ intros E. injection E as <-. left. eapply join_lines_fault, E1. }
  destruct (u64 (strlen b - cc) <=? show obj); [discriminate|].
  destruct (skip_colorchanges m _ _) as [s1|e2] eqn:E2; cbn [bind].
  2:{ intros E. injection E as <-. left. eapply skip_colorchanges_fault, E2. }
  destruct (fill_window m _ _ _ _ _) as [[p|p j v]|e3] eqn:E3; cbn [bind].
  3:{ intros E. injection E as <-. left. eapply fill_window_fault, E3. }
  - discriminate.
  - destruct (pad_window (show obj) j v p) as [p' j'].
    destruct (_ <? _).
    + intros E. injection E as <-. now right.
    + unfold read. destruct (nth_error b _); cbn [bind]; [discriminate|].
      intros E. injection E as <-. now left.
Qed.



(** *** A number with nothing behind it *)

(** C7, the claim as stated fails: for "5 3" the step is 1 and the literal
    text is "3", behind the five blanks of the lead-in; the 3 is not taken
    as the step. *)
Lemma lone_number_is_not_the_step :
  parse_scroll_arg 0 (Some (chars "5 3")) = Ok (mkScroll (chars "     3") 5 1 0 0).
Proof. reflexivity. Qed.

(** C7, amended.  For an argument made of a width (one that an [int] can
    count to), one blank and a second number with nothing behind it, the
    second number is the literal text and the step is 1. *)
Theorem lone_number_after_width_is_text (color : Z) (w n : list ascii) :
  let shw := u32 (strtoul_value false (decimal 0 w)) in
  w <> [] -> n <> [] ->
  forallb isdigit w = true -> forallb isdigit n = true ->
  shw <= INT_MAX ->
  parse_scroll_arg color (Some (w ++ space :: n)) =
  Ok (mkScroll (repeat space (Z.to_nat shw) ++ n) shw 1 0 color).
Proof.
  intros shw Hw Hn Dw Dn Hmax. unfold parse_scroll_arg.
  rewrite (digits_c_str w n Dw Dn).
  rewrite (sscanf_u_n_digits w (space :: n) Hw Dw eq_refl). fold shw.
  pose proof (skip_space_digits n [] Hn Dn) as Hss. rewrite app_nil_r in Hss.
  change (skip_space (space :: n)) with (skip_space n). rewrite Hss.
  assert (Hskip : skipn (Z.to_nat (Z.of_nat (length (w ++ space :: n)) - Z.of_nat (length n)))
                    (w ++ space :: n) = n).
  { rewrite length_app. cbn [length].
    replace (Z.to_nat _) with (length (w ++ [space])) by (rewrite length_app; cbn [length]; lia).
    change (w ++ space :: n) with (w ++ [space] ++ n). rewrite app_assoc.
    rewrite skipn_app, skipn_all, Nat.sub_diag. reflexivity. }
  rewrite Hskip.
  pose proof (sscanf_u_n_digits n [] Hn Dn I) as Hsn. rewrite app_nil_r in Hsn.
  rewrite Hsn. cbn [skip_space length].
  unfold char_at. rewrite (digits_c_str w n Dw Dn).
  rewrite nth_overflow by lia. cbn [Ascii.eqb NUL Bool.eqb].
  destruct (Z.ltb_spec INT_MAX shw); [lia|].
  rewrite Hskip. reflexivity.
Qed.

Lemma lone_number_after_width_is_text_witness :
  parse_scroll_arg 0 (Some (chars "5" ++ space :: chars "3")) =
  Ok (mkScroll
        (repeat space (Z.to_nat (u32 (strtoul_value false (decimal 0 (chars "5")))))
         ++ chars "3")
        (u32 (strtoul_value false (decimal 0 (chars "5")))) 1 0 0).
Proof.
  apply (lone_number_after_width_is_text 0 (chars "5") (chars "3"));
    solve [discriminate | reflexivity | vm_compute; discriminate].
Defined.

(** *** The width *)

(** C8, the claim as stated fails: "0 x" is accepted and gives [show = 0]. *)
Lemma zero_width_is_accepted :
  parse_scroll_arg 0 (Some (chars "0 x")) = Ok (mkScroll (chars "x") 0 1 0 0).
Proof. reflexivity. Qed.

(** C8, amended.  After a successful [parse_scroll_arg], [show] is the value
    [sscanf] read for the width, an [unsigned int]: [0 <= show < 2^32], and
    the cursor is 0.  Nothing keeps [show] away from 0. *)
Theorem accepted_width_is_the_scanned_value
    (color : Z) (a : list ascii) (obj : scroll) :
  parse_scroll_arg color (Some a) = Ok obj ->
  0 <= show obj < 2 ^ 32
  /\ start obj = 0
  /\ exists n, sscanf_u_n (c_str a) = ScanOk (show obj) n.
Proof.
  intros H.
  destruct (parse_scroll_arg_ok_inv color a obj H) as (Hst & n & Hs).
  split; [exact (sscanf_u_n_range _ _ _ Hs)|].
  split; [exact Hst|]. now exists n.
Qed.

Lemma accepted_width_is_the_scanned_value_witness :
  0 <= show (mkScroll (chars "x") 0 1 0 0) < 2 ^ 32
  /\ start (mkScroll (chars "x") 0 1 0 0) = 0
  /\ exists n, sscanf_u_n (c_str (chars "0 x")) = ScanOk (show (mkScroll (chars "x") 0 1 0 0)) n.
Proof.
  apply (accepted_width_is_the_scanned_value 0 (chars "0 x")). reflexivity.
Defined.

(** ** More on [parse_scroll_arg] *)

Lemma skip_space_length (s : list ascii) :
  (length (skip_space s) <= length s)%nat.
Proof.
  induction s as [|c t IH]; cbn [skip_space length]; [lia|].
  destruct (isspace c); cbn [length]; lia.
Qed.

Lemma span_digits_length (s : list ascii) :
  (length (snd (span_digits s)) <= length s)%nat.
Proof.
  induction s as [|c t IH]; cbn [span_digits snd length]; [lia|].
  destruct (isdigit c); [|cbn [snd length]; lia].
  destruct (span_digits t). cbn [snd] in *. lia.
Qed.

(** [%n] counts characters of the input. *)
Lemma sscanf_u_n_count (s : list ascii) (v n : Z) :
  sscanf_u_n s = ScanOk v n -> 0 <= n <= Z.of_nat (length s).
Proof.
  unfold sscanf_u_n. pose proof (skip_space_length s) as Hs.
  destruct (skip_space s) as [|c t]; [discriminate|]. cbn [length] in Hs.
  assert (Hcount : forall neg s2, (length s2 <= S (length t))%nat ->
    match span_digits s2 with
    | ([], _) => ScanFail
    | (ds, s3) =>
        ScanOk (u32 (strtoul_value neg (decimal 0 ds)))
               (Z.of_nat (length s) - Z.of_nat (length (skip_space s3)))
    end = ScanOk v n -> 0 <= n <= Z.of_nat (length s)).
  { intros neg s2 Hl. pose proof (span_digits_length s2) as Hd.
    destruct (span_digits s2) as [[|d ds] s3]; [discriminate|].
    cbn [snd] in Hd. pose proof (skip_space_length s3).
    intros E. injection E as _ <-. lia. }
  destruct (c =? "-")%char; [apply Hcount; lia|].
  destruct (c =? "+")%char; apply Hcount; cbn [length]; lia.
Qed.

Lemma c_str_idem (s : list ascii) : c_str (c_str s) = c_str s.
Proof. apply c_str_id, c_str_no_NUL. Qed.

(** What a successful call has done. *)
Lemma parse_scroll_arg_ok_form (color : Z) (a : list ascii) (obj : scroll) :
  parse_scroll_arg color (Some a) = Ok obj ->
  exists shw n1 stp n2,
    sscanf_u_n (c_str a) = ScanOk shw n1
    /\ 0 <= n2 /\ 0 <= stp < 2 ^ 32
    /\ (obj = mkScroll (repeat space (Z.to_nat shw) ++ skipn (Z.to_nat n1) (c_str a))
                       shw 1 0 color
        \/ nth (Z.to_nat (n1 + n2)) (c_str a) NUL <> NUL
           /\ obj = mkScroll (repeat space (Z.to_nat shw)
                              ++ skipn (Z.to_nat (n1 + n2)) (c_str a))
                             shw stp 0 color).
Proof.
  unfold parse_scroll_arg.
  destruct (sscanf_u_n (c_str a)) as [| |shw n1] eqn:E1; try discriminate.
  destruct (sscanf_u_n (skipn (Z.to_nat n1) (c_str a))) as [| |stp n2] eqn:E2.
  - unfold char_at. rewrite c_str_idem.
    destruct (_ =? NUL)%char; destruct (INT_MAX <? shw); try discriminate;
      intros E; injection E as <-; exists shw, n1, 1, 0;
      repeat split; try lia; rewrite ?Z.add_0_r; now left.
  - unfold char_at. rewrite c_str_idem.
    destruct (_ =? NUL)%char; destruct (INT_MAX <? shw); try discriminate;
      intros E; injection E as <-; exists shw, n1, 1, 0;
      repeat split; try lia; rewrite ?Z.add_0_r; now left.
  - pose proof (sscanf_u_n_count _ _ _ E2) as Hn2.
    pose proof (sscanf_u_n_range _ _ _ E2) as Hstp.
    unfold char_at. rewrite c_str_idem.
    destruct (Ascii.eqb_spec (nth (Z.to_nat (n1 + n2)) (c_str a) NUL) NUL) as [E|E];
      destruct (INT_MAX <? shw); try discriminate;
      intros E'; injection E' as <-; exists shw, n1, stp, n2;
      repeat split; try lia; [now left|now right].
Qed.

Lemma skipn_repeat_app {A : Type} (x : A) (k : nat) (l : list A) :
  skipn k (repeat x k ++ l) = l.
Proof.
  rewrite skipn_app, repeat_length, Nat.sub_diag.
  rewrite skipn_all2 by (rewrite repeat_length; lia). reflexivity.
Qed.

Lemma firstn_repeat_app {A : Type} (x : A) (k : nat) (l : list A) :
  firstn k (repeat x k ++ l) = repeat x k.
Proof.
  rewrite firstn_app, repeat_length, Nat.sub_diag.
  rewrite firstn_all2 by (rewrite repeat_length; lia).
  cbn [firstn]. apply app_nil_r.
Qed.

(** X7.  The text of an accepted argument is [show] blanks followed by a
    tail of the argument; the colour is the one current at the call, and
    the step is an [unsigned int]. *)
Theorem accepted_text_is_blanks_and_tail
    (color : Z) (a : list ascii) (obj : scroll) :
  parse_scroll_arg color (Some a) = Ok obj ->
  firstn (Z.to_nat (show obj)) (text obj) = repeat space (Z.to_nat (show obj))
  /\ (exists k, skipn (Z.to_nat (show obj)) (text obj) = skipn k (c_str a))
  /\ resetcolor obj = color
  /\ 0 <= step obj < 2 ^ 32.
Proof.
  intros H.
  destruct (parse_scroll_arg_ok_form color a obj H)
    as (shw & n1 & stp & n2 & _ & _ & Hstp & [->|(_ & ->)]);
    cbn [show text resetcolor step];
    rewrite firstn_repeat_app, skipn_repeat_app;
    (split; [reflexivity|]); (split; [eauto|]); (split; [reflexivity|lia]).
Qed.

Lemma accepted_text_is_blanks_and_tail_witness :
  let obj := mkScroll (chars "   hello") 3 2 0 7 in
  firstn (Z.to_nat (show obj)) (text obj) = repeat space (Z.to_nat (show obj))
  /\ (exists k, skipn (Z.to_nat (show obj)) (text obj) = skipn k (c_str (chars "3 2 hello")))
  /\ resetcolor obj = 7
  /\ 0 <= step obj < 2 ^ 32.
Proof.
  apply (accepted_text_is_blanks_and_tail 7 (chars "3 2 hello")). reflexivity.
Defined.

(** X8.  A step other than 1 is only ever taken from a number that has
    literal text behind it: when the literal text of an accepted argument is
    empty, the step is 1. *)
Theorem empty_literal_text_means_step_one
    (color : Z) (a : list ascii) (obj : scroll) :
  parse_scroll_arg color (Some a) = Ok obj ->
  skipn (Z.to_nat (show obj)) (text obj) = [] ->
  step obj = 1.
Proof.
  intros H.
  destruct (parse_scroll_arg_ok_form color a obj H)
    as (shw & n1 & stp & n2 & _ & _ & _ & [->|(Hc & ->)]);
    cbn [show text step]; [reflexivity|].
  rewrite skipn_repeat_app. intros E. exfalso. apply Hc.
  rewrite <- (firstn_skipn (Z.to_nat (n1 + n2)) (c_str a)), E, app_nil_r.
  apply nth_overflow. rewrite length_firstn. lia.
Qed.

Lemma empty_literal_text_means_step_one_witness :
  step (mkScroll (chars "     ") 5 1 0 0) = 1.
Proof.
  apply (empty_literal_text_means_step_one 0 (chars "5 ")); reflexivity.
Defined.

Lemma skip_space_suffix (s : list ascii) :
  exists ws, s = ws ++ skip_space s /\ forallb isspace ws = true.
Proof.
  induction s as [|c t IH]; [now exists []|]. cbn [skip_space].
  destruct (isspace c) eqn:E; [|now exists []].
  destruct IH as (ws & Hws & Hall). exists (c :: ws). cbn [app forallb].
  rewrite E, Hall. split; [now f_equal|reflexivity].
Qed.

Lemma span_digits_split (s : list ascii) :
  s = fst (span_digits s) ++ snd (span_digits s).
Proof.
  induction s as [|c t IH]; [reflexivity|]. cbn [span_digits].
  destruct (isdigit c); [|reflexivity].
  destruct (span_digits t). cbn [fst snd app] in *. now f_equal.
Qed.

Lemma skip_space_head (s : list ascii) :
  match skip_space s with c :: _ => isspace c = false | [] => True end.
Proof.
  induction s as [|c t IH]; cbn [skip_space]; [exact I|].
  destruct (isspace c) eqn:E; [exact IH|exact E].
Qed.

Lemma skipn_length_app {A : Type} (l r : list A) : skipn (length l) (l ++ r) = r.
Proof. rewrite skipn_app, skipn_all, Nat.sub_diag. reflexivity. Qed.

(** After a successful [sscanf] the input goes on, at the position [%n]
    stored, with something that is not white space. *)
Lemma sscanf_u_n_rest (s : list ascii) (v n : Z) :
  sscanf_u_n s = ScanOk v n ->
  match skipn (Z.to_nat n) s with c :: _ => isspace c = false | [] => True end.
Proof.
  unfold sscanf_u_n.
  destruct (skip_space_suffix s) as (ws & Hws & _).
  destruct (skip_space s) as [|c t]; [discriminate|].
  assert (Hrest : forall neg pre s2, s = pre ++ s2 ->
    match span_digits s2 with
    | ([], _) => ScanFail
    | (ds, s3) =>
        ScanOk (u32 (strtoul_value neg (decimal 0 ds)))
               (Z.of_nat (length s) - Z.of_nat (length (skip_space s3)))
    end = ScanOk v n ->
    match skipn (Z.to_nat n) s with c :: _ => isspace c = false | [] => True end).
  { intros neg pre s2 Hs. pose proof (span_digits_split s2) as Hd.
    destruct (span_digits s2) as [[|d ds] s3]; [discriminate|].
    cbn [fst snd] in Hd. intros E. injection E as _ <-.
    destruct (skip_space_suffix s3) as (ws3 & Hs3 & _).
    pose proof (skip_space_head s3) as Hh.
    assert (Hsplit : s = (pre ++ (d :: ds) ++ ws3) ++ skip_space s3).
    { rewrite Hs, Hd. rewrite Hs3 at 1. now rewrite <- !app_assoc. }
    assert (Hcut : forall P R : list ascii, s = P ++ R ->
      skipn (Z.to_nat (Z.of_nat (length s) - Z.of_nat (length R))) s = R).
    { intros P R ->. rewrite length_app.
      replace (Z.to_nat _) with (length P) by lia. apply skipn_length_app. }
    now rewrite (Hcut _ _ Hsplit). }
  destruct (c =? "-")%char.
  - apply (Hrest true (ws ++ [c]) t). rewrite Hws. now rewrite <- app_assoc.
  - destruct (c =? "+")%char.
    + apply (Hrest false (ws ++ [c]) t). rewrite Hws. now rewrite <- app_assoc.
    + apply (Hrest false ws (c :: t)). exact Hws.
Qed.

(** X9.  The literal text of an accepted argument never begins with white
    space: what separates it from the numbers in front is skipped. *)
Theorem literal_text_has_no_leading_space
    (color : Z) (a : list ascii) (obj : scroll) :
  parse_scroll_arg color (Some a) = Ok obj ->
  match skipn (Z.to_nat (show obj)) (text obj) with
  | c :: _ => isspace c = false
  | [] => True
  end.
Proof.
  unfold parse_scroll_arg.
  destruct (sscanf_u_n (c_str a)) as [| |shw n1] eqn:E1; try discriminate.
  pose proof (sscanf_u_n_rest _ _ _ E1) as H1.
  pose proof (sscanf_u_n_count _ _ _ E1) as Hn1.
  destruct (sscanf_u_n (skipn (Z.to_nat n1) (c_str a))) as [| |stp n2] eqn:E2.
  1, 2: destruct (_ =? NUL)%char; destruct (INT_MAX <? shw); try discriminate;
        intros E; injection E as <-; cbn [show text];
        rewrite skipn_repeat_app, ?Z.add_0_r; exact H1.
  pose proof (sscanf_u_n_rest _ _ _ E2) as H2.
  pose proof (sscanf_u_n_count _ _ _ E2) as Hn2.
  rewrite skipn_skipn in H2.
  replace (Z.to_nat n2 + Z.to_nat n1)%nat with (Z.to_nat (n1 + n2)) in H2 by lia.
  destruct (_ =? NUL)%char; destruct (INT_MAX <? shw); try discriminate;
    intros E; injection E as <-; cbn [show text];
    rewrite skipn_repeat_app; assumption.
Qed.

Lemma literal_text_has_no_leading_space_witness :
  match skipn (Z.to_nat 3) (chars "   hello") with
  | c :: _ => isspace c = false
  | [] => True
  end.
Proof.
  apply (literal_text_has_no_leading_space 7 (chars "3 2    hello")
           (mkScroll (chars "   hello") 3 2 0 7)).
  reflexivity.
Defined.

Lemma skip_space_fixed (t : list ascii) :
  match t with c :: _ => isspace c = false | [] => True end -> skip_space t = t.
Proof. destruct t as [|c t]; cbn [skip_space]; [reflexivity|]. now intros ->. Qed.

Lemma nth_length_app {A : Type} (l : list A) (x d : A) (r : list A) :
  nth (length l) (l ++ x :: r) d = x.
Proof. rewrite app_nth2, Nat.sub_diag by lia. reflexivity. Qed.

(** X10.  A width, a step and a text, one blank between them: the width
    and the step are the two numbers and the literal text is the text. *)
Theorem width_step_and_text (color : Z) (w n t : list ascii) :
  let shw := u32 (strtoul_value false (decimal 0 w)) in
  let stp := u32 (strtoul_value false (decimal 0 n)) in
  w <> [] -> n <> [] ->
  forallb isdigit w = true -> forallb isdigit n = true ->
  ~ In NUL t ->
  match t with c :: _ => isspace c = false | [] => False end ->
  shw <= INT_MAX ->
  parse_scroll_arg color (Some (w ++ space :: n ++ space :: t)) =
  Ok (mkScroll (repeat space (Z.to_nat shw) ++ t) shw stp 0 color).
Proof.
  intros shw stp Hw Hn Dw Dn Ht Hhead Hmax.
  destruct t as [|c t']; [contradiction|]. set (t := c :: t') in *.
  assert (Ha : c_str (w ++ space :: n ++ space :: t) = w ++ space :: n ++ space :: t).
  { apply c_str_id. intros H.
    apply in_app_or in H as [H|[H|H]]; try discriminate.
    - rewrite forallb_forall in Dw. now apply (isdigit_not_NUL NUL (Dw _ H)).
    - apply in_app_or in H as [H|[H|H]]; try discriminate; [|tauto].
      rewrite forallb_forall in Dn. now apply (isdigit_not_NUL NUL (Dn _ H)). }
  unfold parse_scroll_arg. rewrite Ha.
  rewrite (sscanf_u_n_digits w (space :: n ++ space :: t) Hw Dw eq_refl). fold shw.
  change (skip_space (space :: n ++ space :: t)) with (skip_space (n ++ space :: t)).
  rewrite (skip_space_digits n (space :: t) Hn Dn).
  assert (Hskip1 :
    skipn (Z.to_nat (Z.of_nat (length (w ++ space :: n ++ space :: t))
                     - Z.of_nat (length (n ++ space :: t))))
      (w ++ space :: n ++ space :: t) = n ++ space :: t).
  { change (w ++ space :: n ++ space :: t) with (w ++ [space] ++ n ++ space :: t).
    rewrite app_assoc, length_app.
    replace (Z.to_nat _) with (length (w ++ [space])) by lia.
    apply skipn_length_app. }
  rewrite Hskip1.
  rewrite (sscanf_u_n_digits n (space :: t) Hn Dn eq_refl). fold stp.
  change (skip_space (space :: t)) with (skip_space t).
  rewrite (skip_space_fixed t Hhead).
  assert (Hpos :
    Z.to_nat (Z.of_nat (length (w ++ space :: n ++ space :: t))
              - Z.of_nat (length (n ++ space :: t))
              + (Z.of_nat (length (n ++ space :: t)) - Z.of_nat (length t)))
    = length (w ++ space :: n ++ [space])).
  { rewrite !length_app. cbn [length]. rewrite !length_app. cbn [length]. lia. }
  unfold char_at. rewrite Ha, Hpos.
  assert (Hsplit : w ++ space :: n ++ space :: t = (w ++ space :: n ++ [space]) ++ t).
  { rewrite <- app_assoc. cbn [app]. now rewrite <- app_assoc. }
  rewrite Hsplit. unfold t at 1. rewrite nth_length_app.
  destruct (Ascii.eqb_spec c NUL) as [->|_]; [exfalso; apply Ht; now left|].
  destruct (Z.ltb_spec INT_MAX shw); [lia|].
  rewrite <- Hsplit, Hpos, Hsplit, skipn_length_app. reflexivity.
Qed.

Lemma width_step_and_text_witness :
  parse_scroll_arg 7 (Some (chars "12" ++ space :: chars "3" ++ space :: chars "to be shown")) =
  Ok (mkScroll
        (repeat space (Z.to_nat (u32 (strtoul_value false (decimal 0 (chars "12")))))
         ++ chars "to be shown")
        (u32 (strtoul_value false (decimal 0 (chars "12"))))
        (u32 (strtoul_value false (decimal 0 (chars "3")))) 0 7).
Proof.
  apply (width_step_and_text 7 (chars "12") (chars "3") (chars "to be shown"));
    solve [discriminate | reflexivity | vm_compute; discriminate
          | cbn; intuition discriminate].
Defined.

(** X11.  A width and a text that does not open with a number: the step is
    1 and the literal text is the text. *)
Theorem width_and_text (color : Z) (w t : list ascii) :
  let shw := u32 (strtoul_value false (decimal 0 w)) in
  w <> [] -> forallb isdigit w = true ->
  ~ In NUL t ->
  match t with c :: _ => isspace c = false | [] => False end ->
  starts_with_integer t = false ->
  shw <= INT_MAX ->
  parse_scroll_arg color (Some (w ++ space :: t)) =
  Ok (mkScroll (repeat space (Z.to_nat shw) ++ t) shw 1 0 color).
Proof.
  intros shw Hw Dw Ht Hhead Hnum Hmax.
  destruct t as [|c t']; [contradiction|]. set (t := c :: t') in *.
  assert (Ha : c_str (w ++ space :: t) = w ++ space :: t).
  { apply c_str_id. intros H.
    apply in_app_or in H as [H|[H|H]]; try discriminate; [|tauto].
    rewrite forallb_forall in Dw. now apply (isdigit_not_NUL NUL (Dw _ H)). }
  unfold parse_scroll_arg. rewrite Ha.
  rewrite (sscanf_u_n_digits w (space :: t) Hw Dw eq_refl). fold shw.
  change (skip_space (space :: t)) with (skip_space t).
  rewrite (skip_space_fixed t Hhead).
  assert (Hpos : Z.to_nat (Z.of_nat (length (w ++ space :: t)) - Z.of_nat (length t))
                 = length (w ++ [space])).
  { rewrite !length_app. cbn [length]. lia. }
  assert (Hsplit : w ++ space :: t = (w ++ [space]) ++ t)
    by (now rewrite <- app_assoc).
  rewrite Hpos. rewrite Hsplit at 1. rewrite skipn_length_app.
  assert (Hfail : forall v k, sscanf_u_n t <> ScanOk v k).
  { intros v k E. pose proof (sscanf_u_n_ok_iff t) as [Hiff _].
    rewrite (c_str_id t Ht), Hnum in Hiff. discriminate Hiff. eauto. }
  assert (Hsecond : match sscanf_u_n t with ScanOk v k => (v, k) | _ => (1, 0) end
                    = (1, 0)).
  { destruct (sscanf_u_n t) as [| |v k]; try reflexivity. now destruct (Hfail v k). }
  rewrite Hsecond. unfold char_at. rewrite Ha, Z.add_0_r, Hpos.
  rewrite Hsplit. unfold t at 1. rewrite nth_length_app.
  destruct (Ascii.eqb_spec c NUL) as [->|_]; [exfalso; apply Ht; now left|].
  destruct (Z.ltb_spec INT_MAX shw); [lia|].
  rewrite <- Hsplit, Hpos, Hsplit, skipn_length_app. reflexivity.
Qed.

Lemma width_and_text_witness :
  parse_scroll_arg 7 (Some (chars "12" ++ space :: chars "to be shown")) =
  Ok (mkScroll
        (repeat space (Z.to_nat (u32 (strtoul_value false (decimal 0 (chars "12")))))
         ++ chars "to be shown")
        (u32 (strtoul_value false (decimal 0 (chars "12")))) 1 0 7).
Proof.
  apply (width_and_text 7 (chars "12") (chars "to be shown"));
    solve [discriminate | reflexivity | vm_compute; discriminate
          | cbn; intuition discriminate].
Defined.

Lemma isspace_not_NUL (c : ascii) : isspace c = true -> c <> NUL.
Proof. intros H ->. discriminate. Qed.

Lemma c_str_space_app (ws s : list ascii) :
  forallb isspace ws = true -> c_str (ws ++ s) = ws ++ c_str s.
Proof.
  induction ws as [|c t IH]; cbn [forallb app c_str]; [reflexivity|].
  intros H. apply andb_prop in H as [Hc Ht].
  destruct (Ascii.eqb_spec c NUL) as [E|_]; [now apply isspace_not_NUL in Hc|].
  now rewrite IH.
Qed.

Lemma skip_space_app (ws s : list ascii) :
  forallb isspace ws = true -> skip_space (ws ++ s) = skip_space s.
Proof.
  induction ws as [|c t IH]; cbn [forallb app skip_space]; [reflexivity|].
  intros H. apply andb_prop in H as [-> Ht]. now apply IH.
Qed.

Lemma skipn_past_app {A : Type} (l r : list A) (k : Z) :
  0 <= k -> skipn (Z.to_nat (k + Z.of_nat (length l))) (l ++ r) = skipn (Z.to_nat k) r.
Proof.
  intros Hk. replace (Z.to_nat (k + Z.of_nat (length l)))
    with (Z.to_nat k + length l)%nat by lia.
  rewrite <- skipn_skipn, skipn_length_app. reflexivity.
Qed.

(** [sscanf] on input with more white space in front: the same value, and
    the count larger by the white space. *)
Lemma sscanf_u_n_space_app (ws s : list ascii) :
  forallb isspace ws = true ->
  sscanf_u_n (ws ++ s) =
  match sscanf_u_n s with
  | ScanOk v n => ScanOk v (n + Z.of_nat (length ws))
  | r => r
  end.
Proof.
  intros Hws. unfold sscanf_u_n. rewrite (skip_space_app ws s Hws).
  destruct (skip_space s) as [|c t]; [reflexivity|].
  destruct (if (c =? "-")%char then (true, t)
            else if (c =? "+")%char then (false, t) else (false, c :: t))
    as [neg s2].
  destruct (span_digits s2) as [[|d ds] s3]; [reflexivity|].
  rewrite length_app. f_equal. lia.
Qed.

(** X12.  White space in front of the width changes nothing. *)
Theorem leading_white_space_is_ignored (color : Z) (ws a : list ascii) :
  forallb isspace ws = true ->
  parse_scroll_arg color (Some (ws ++ a)) = parse_scroll_arg color (Some a).
Proof.
  intros Hws. unfold parse_scroll_arg, char_at.
  rewrite (c_str_space_app ws a Hws), !c_str_idem.
  rewrite (c_str_space_app ws (c_str a) Hws), c_str_idem.
  set (s := c_str a).
  rewrite (sscanf_u_n_space_app ws s Hws).
  destruct (sscanf_u_n s) as [| |shw n1] eqn:E1; try reflexivity.
  pose proof (sscanf_u_n_count _ _ _ E1) as Hn1.
  rewrite (skipn_past_app ws s n1) by lia.
  assert (Hn2 : 0 <= snd (match sscanf_u_n (skipn (Z.to_nat n1) s) with
                          | ScanOk v n => (v, n) | _ => (1, 0) end)).
  { destruct (sscanf_u_n (skipn (Z.to_nat n1) s)) as [| |v n] eqn:E2;
      cbn [snd]; try lia.
    apply (sscanf_u_n_count _ _ _ E2). }
  destruct (match sscanf_u_n (skipn (Z.to_nat n1) s) with
            | ScanOk v n => (v, n) | _ => (1, 0) end) as [stp n2].
  cbn [snd] in Hn2.
  replace (n1 + Z.of_nat (length ws) + n2) with (n1 + n2 + Z.of_nat (length ws)) by lia.
  replace (Z.to_nat (n1 + n2 + Z.of_nat (length ws)))
    with (length ws + Z.to_nat (n1 + n2))%nat by lia.
  rewrite app_nth2_plus.
  destruct (nth (Z.to_nat (n1 + n2)) s NUL =? NUL)%char.
  - rewrite (skipn_past_app ws s n1) by lia. reflexivity.
  - replace (length ws + Z.to_nat (n1 + n2))%nat
      with (Z.to_nat (n1 + n2 + Z.of_nat (length ws))) by lia.
    rewrite (skipn_past_app ws s (n1 + n2)) by lia. reflexivity.
Qed.

Lemma leading_white_space_is_ignored_witness :
  parse_scroll_arg 7 (Some (chars "   " ++ chars "5 2 text")) =
  parse_scroll_arg 7 (Some (chars "5 2 text")).
Proof.
  apply (leading_white_space_is_ignored 7 (chars "   ") (chars "5 2 text")).
  reflexivity.
Defined.

(** ** The general statements about [print_scroll] at concrete texts *)

Ltac by_computation :=
  solve [ cbn; tauto
        | reflexivity
        | vm_compute; repeat split; (reflexivity || discriminate) ].

(** The text "ab" MARK "cd", [show = 2] and the cursor at 1. *)
Lemma window_inside_text_slice_witness :
  let slice := "b"%char :: MARK :: chars "c" in
  print_scroll MARK true (mkScroll [] 2 1 1 9)
    (buffer (chars "ab" ++ MARK :: chars "cd") []) 256 =
    Ok (mkScroll [] 2 1 2 9, mkOutput (slice ++ [NUL]) (Some 9))
  /\ printable MARK slice = 2
  /\ markers MARK slice = 1.
Proof.
  refine (window_inside_text_slice MARK true MARK_marker_byte
            (mkScroll [] 2 1 1 9) (buffer (chars "ab" ++ MARK :: chars "cd") []) 256
            _ _ _ _ _ _); by_computation.
Defined.

Lemma slice_shows_next_characters_witness :
  visible MARK ("b"%char :: MARK :: chars "c") = chars "bc".
Proof.
  refine (slice_shows_next_characters MARK true MARK_marker_byte
            (mkScroll [] 2 1 1 9) (mkScroll [] 2 1 2 9)
            (mkOutput ("b"%char :: MARK :: chars "c" ++ [NUL]) (Some 9))
            (buffer (chars "ab" ++ MARK :: chars "cd") []) 256
            _ _ _ _ _ _); by_computation.
Defined.

Lemma slice_length_is_show_and_markers_witness :
  Z.of_nat (length ("b"%char :: MARK :: chars "c" ++ [NUL])) = 2 + 1 + 1.
Proof.
  refine (slice_length_is_show_and_markers MARK true MARK_marker_byte
            (mkScroll [] 2 1 1 9) (mkScroll [] 2 1 2 9)
            (mkOutput ("b"%char :: MARK :: chars "c" ++ [NUL]) (Some 9))
            (buffer (chars "ab" ++ MARK :: chars "cd") []) 4
            _ _ _ _ _ _); by_computation.
Defined.

(** The text "hi", [show = 10] and room for two bytes. *)
Lemma short_text_keeps_to_capacity_witness :
  exists o,
    print_scroll MARK true (mkScroll [] 10 1 0 0) (buffer (chars "hi") []) 2 =
      Ok (mkScroll [] 10 1 0 0, o)
    /\ Z.of_nat (length (written o)) <= 2
    /\ (2 = 0 -> written o = [])
    /\ (0 < 2 -> written o = firstn (Z.to_nat (2 - 1)) (chars "hi") ++ [NUL]).
Proof.
  refine (short_text_keeps_to_capacity MARK true MARK_marker_byte
            (mkScroll [] 10 1 0 0) (buffer (chars "hi") []) 2 _ _ _ _);
    by_computation.
Defined.

(** Two lines, "a" and "b", as a short text. *)
Lemma output_has_no_line_break_witness :
  ~ In newline (chars "a|b" ++ [NUL]).
Proof.
  refine (output_has_no_line_break MARK true MARK_marker_byte
            (mkScroll [] 10 1 0 0) (mkScroll [] 10 1 0 0)
            (mkOutput (chars "a|b" ++ [NUL]) None)
            (buffer ("a"%char :: newline :: chars "b") []) 256 _ _ _ _ _);
    by_computation.
Defined.

(** The text "abcd" through a window of 2 with a step of 2. *)
Lemma plain_text_scrolls_in_a_cycle_witness :
  print_scroll_n MARK true 2 (mkScroll [] 2 2 0 5) (buffer (chars "abcd") []) 256 =
  Ok (mkScroll [] 2 2 0 5,
      [mkOutput (chars "ab" ++ [NUL]) (Some 5);
       mkOutput (chars "cd" ++ [NUL]) (Some 5)]).
Proof.
  refine (plain_text_scrolls_in_a_cycle MARK true MARK_marker_byte
            (mkScroll [] 2 2 0 5) (buffer (chars "abcd") []) 256 2
            _ _ _ _ _ _ _); by_computation.
Defined.

(** The text "abc", [show = 2] and the cursor at 2. *)
Lemma scroll_stays_at_tail_witness :
  print_scroll_n MARK true 3 (mkScroll [] 2 1 2 0) (buffer (chars "abc") []) 256 =
  Ok (mkScroll [] 2 1 2 0, repeat (mkOutput (chars "c" ++ [NUL]) None) 3).
Proof.
  refine (scroll_stays_at_tail MARK true MARK_marker_byte
            (mkScroll [] 2 1 2 0) (buffer (chars "abc") []) 256 2 _ _ _ _ _);
    by_computation.
Defined.

Lemma scrolling_path_never_reads_capacity_witness :
  print_scroll MARK true (mkScroll [] 2 1 0 0) (buffer (chars "abc") []) 256 =
  print_scroll MARK true (mkScroll [] 2 1 0 0) (buffer (chars "abc") []) 1.
Proof.
  refine (scrolling_path_never_reads_capacity MARK true (mkScroll [] 2 1 0 0)
            (buffer (chars "abc") []) (buffer (chars "abc") []) 0 256 1 _ _);
    by_computation.
Defined.

(** ** [free_scroll] *)

Lemma c_free_spec (p : block) (heap heap' : list block) :
  c_free p heap = Some heap' ->
  In p heap /\ ~ In p heap' /\ (forall b, In b heap' -> In b heap).
Proof.
  unfold c_free. destruct (existsb (Nat.eqb p) heap) eqn:E; [|discriminate].
  intros H. injection H as <-.
  apply existsb_exists in E as (b & Hb & Heq). apply Nat.eqb_eq in Heq. subst b.
  split; [exact Hb|]. split.
  - intros H. apply filter_In in H as (_ & H). now rewrite Nat.eqb_refl in H.
  - intros b H. now apply filter_In in H.
Qed.

Lemma c_free_gone (p : block) (heap : list block) :
  ~ In p heap -> c_free p heap = None.
Proof.
  intros H. unfold c_free. destruct (existsb (Nat.eqb p) heap) eqn:E; [|reflexivity].
  apply existsb_exists in E as (b & Hb & Heq). apply Nat.eqb_eq in Heq. now subst b.
Qed.

Section FreeScrollProofs.

Variable free_text_objects : block -> list block -> list block.

(** What is asked of [free_text_objects]: it hands no block out. *)
Hypothesis only_releases :
  forall s heap b, In b (free_text_objects s heap) -> In b heap.

(** What a call that goes through has done. *)
Lemma free_scroll_done (obj obj' : scroll_ptrs) (heap heap' : list block) :
  free_scroll free_text_objects obj heap = Some (obj', heap') ->
  sub_ptr obj' = None
  /\ text_ptr obj' = text_ptr obj
  /\ (forall b, text_ptr obj = Some b \/ sub_ptr obj = Some b -> ~ In b heap')
  /\ (forall b, In b heap' -> In b heap).
Proof.
  unfold free_scroll.
  destruct obj as [[t|] [s|]]; cbn [text_ptr sub_ptr].
  - destruct (c_free t heap) as [h1|] eqn:E1; [|discriminate].
    destruct (c_free s (free_text_objects s h1)) as [h2|] eqn:E2; [|discriminate].
    intros H. injection H as <- <-. cbn [text_ptr sub_ptr].
    destruct (c_free_spec _ _ _ E1) as (_ & Ht & Hsub1).
    destruct (c_free_spec _ _ _ E2) as (_ & Hs & Hsub2).
    repeat split; try reflexivity.
    + intros b [E|E]; injection E as <-; [|exact Hs].
      intros H. apply Ht. eapply only_releases, Hsub2, H.
    + intros b H. eapply Hsub1, only_releases, Hsub2, H.
  - destruct (c_free t heap) as [h1|] eqn:E1; [|discriminate].
    intros H. injection H as <- <-. cbn [text_ptr sub_ptr].
    destruct (c_free_spec _ _ _ E1) as (_ & Ht & Hsub1).
    repeat split; try reflexivity; [|exact Hsub1].
    intros b [E|E]; [injection E as <-; exact Ht|discriminate].
  - destruct (c_free s (free_text_objects s heap)) as [h2|] eqn:E2; [|discriminate].
    intros H. injection H as <- <-. cbn [text_ptr sub_ptr].
    destruct (c_free_spec _ _ _ E2) as (_ & Hs & Hsub2).
    repeat split; try reflexivity.
    + intros b [E|E]; [discriminate|injection E as <-; exact Hs].
    + intros b H. eapply only_releases, Hsub2, H.
  - intros H. injection H as <- <-. cbn [text_ptr sub_ptr].
    repeat split; try reflexivity; [|tauto].
    intros b [E|E]; discriminate.
Qed.

(** X13.  A call of [free_scroll] that goes through leaves [sub] null and
    the [text] pointer as it was; the blocks of both are no longer in the
    heap, and no block has come into it. *)
Theorem free_scroll_releases_both_blocks
    (obj obj' : scroll_ptrs) (heap heap' : list block) :
  free_scroll free_text_objects obj heap = Some (obj', heap') ->
  sub_ptr obj' = None
  /\ text_ptr obj' = text_ptr obj
  /\ (forall b, text_ptr obj = Some b \/ sub_ptr obj = Some b -> ~ In b heap')
  /\ (forall b, In b heap' -> In b heap).
Proof. apply free_scroll_done. Qed.

(** X14.  A second call of [free_scroll] on the same object changes nothing
    when [text] is null, and frees the block of [text] a second time when it
    is not: the first call did not set the pointer to null. *)
Theorem free_scroll_twice (obj obj' : scroll_ptrs) (heap heap' : list block) :
  free_scroll free_text_objects obj heap = Some (obj', heap') ->
  free_scroll free_text_objects obj' heap' =
  match text_ptr obj with
  | Some _ => None
  | None => Some (obj', heap')
  end.
Proof.
  intros H. destruct (free_scroll_done _ _ _ _ H) as (Hsub & Htext & Hgone & _).
  unfold free_scroll. rewrite Hsub, Htext.
  destruct (text_ptr obj) as [t|] eqn:Et.
  - rewrite c_free_gone; [reflexivity|]. apply Hgone. now left.
  - destruct obj' as [t' s']. cbn [text_ptr sub_ptr] in *. now subst.
Qed.

End FreeScrollProofs.

Lemma free_scroll_releases_both_blocks_witness :
  sub_ptr (mkPtrs (Some 1%nat) None) = None
  /\ text_ptr (mkPtrs (Some 1%nat) None) = text_ptr (mkPtrs (Some 1%nat) (Some 2%nat))
  /\ (forall b, text_ptr (mkPtrs (Some 1%nat) (Some 2%nat)) = Some b
                \/ sub_ptr (mkPtrs (Some 1%nat) (Some 2%nat)) = Some b ->
                ~ In b [3%nat])
  /\ (forall b, In b [3%nat] -> In b [1%nat; 2%nat; 3%nat]).
Proof.
  refine (free_scroll_releases_both_blocks (fun _ heap => heap) (fun _ _ _ H => H)
            (mkPtrs (Some 1%nat) (Some 2%nat)) (mkPtrs (Some 1%nat) None)
            [1%nat; 2%nat; 3%nat] [3%nat] _).
  reflexivity.
Defined.

Lemma free_scroll_twice_witness :
  free_scroll (fun _ heap => heap) (mkPtrs (Some 1%nat) None) [3%nat] = None.
Proof.
  refine (free_scroll_twice (fun _ heap => heap) (fun _ _ _ H => H)
            (mkPtrs (Some 1%nat) (Some 2%nat)) (mkPtrs (Some 1%nat) None)
            [1%nat; 2%nat; 3%nat] [3%nat] _).
  reflexivity.
Defined.

(** ** The Lua binding *)

Lemma to_int_done (x : Z) : - 2 ^ 31 <= x <= INT_MAX -> Lua.to_int x = Lua.Done x.
Proof.
  intros H. unfold Lua.to_int.
  destruct (Z.leb_spec (- 2 ^ 31) x); [|lia].
  destruct (Z.leb_spec x INT_MAX); [reflexivity|lia].
Qed.

Lemma to_int_inv (x y : Z) : Lua.to_int x = Lua.Done y -> y = x.
Proof.
  unfold Lua.to_int. destruct (_ && _); [|discriminate].
  intros H. now injection H.
Qed.

Section LuaProofs.

Variable value : Type.
Variable nil : value.
Variable NDEBUG : bool.

Lemma assert_holds {A : Type} (c : bool) (k : Lua.outcome A) :
  c = true -> Lua.assert NDEBUG c k = k.
Proof. intros ->. unfold Lua.assert. now rewrite orb_true_r. Qed.

(** X15.  For an index that counts from the top of the stack, [absindex]
    gives the index that counts the same value from the bottom; that index
    keeps standing for this value when more values are pushed. *)
Theorem absindex_keeps_its_value (st extra : list value) (index : Z) :
  Z.of_nat (length st) < INT_MAX ->
  - Z.of_nat (length st) <= index <= -1 ->
  exists j,
    Lua.absindex st index = Lua.Done j
    /\ 1 <= j <= Lua.gettop st
    /\ Lua.index2value (st ++ extra) j = Lua.index2value st index.
Proof.
  intros Hlen Hidx. exists (Lua.gettop st + 1 + index).
  unfold Lua.absindex, Lua.index2value, Lua.gettop, INT_MAX in *.
  destruct (Z.ltb_spec index 0); [|lia].
  rewrite to_int_done by (unfold INT_MAX; lia). cbn [Lua.and_then].
  destruct (Z.leb_spec (- index) (Z.of_nat (length st))); [|lia].
  rewrite to_int_done by (unfold INT_MAX; lia). cbn [Lua.and_then].
  rewrite to_int_done by (unfold INT_MAX; lia).
  split; [reflexivity|]. split; [lia|].
  destruct (Z.ltb_spec 0 (Z.of_nat (length st) + 1 + index)); [|lia].
  destruct (Z.ltb_spec 0 index); [lia|]. cbn [andb].
  destruct (Z.leb_spec (- index) (Z.of_nat (length st))); [|lia].
  rewrite nth_error_app1 by lia. f_equal. lia.
Qed.

(** X16.  What [absindex] gives is an index it leaves alone, and never one
    that counts from the top of the stack. *)
Theorem absindex_is_idempotent (st : list value) (index j : Z) :
  Lua.absindex st index = Lua.Done j ->
  Lua.absindex st j = Lua.Done j
  /\ (0 <= j \/ Lua.gettop st < - j).
Proof.
  unfold Lua.absindex.
  destruct (Z.ltb_spec index 0) as [Hneg|Hpos].
  - destruct (Lua.to_int (- index)) as [m| |] eqn:Em; cbn [Lua.and_then];
      try discriminate.
    pose proof (to_int_inv _ _ Em) as ->.
    destruct (Z.leb_spec (- index) (Lua.gettop st)) as [Hin|Hout].
    + destruct (Lua.to_int (Lua.gettop st + 1)) as [t1| |] eqn:Et; cbn [Lua.and_then];
        try discriminate.
      pose proof (to_int_inv _ _ Et) as ->.
      intros Ej. pose proof (to_int_inv _ _ Ej) as ->.
      destruct (Z.ltb_spec (Lua.gettop st + 1 + index) 0); [lia|].
      split; [reflexivity|lia].
    + intros E. injection E as <-.
      destruct (Z.ltb_spec index 0); [|lia]. rewrite Em. cbn [Lua.and_then].
      destruct (Z.leb_spec (- index) (Lua.gettop st)); [lia|].
      split; [reflexivity|lia].
  - intros E. injection E as <-.
    destruct (Z.ltb_spec index 0); [lia|]. split; [reflexivity|lia].
Qed.

Lemma settop_cut (st extra : list value) (k : nat) :
  (k <= length extra)%nat ->
  Lua.settop nil (Z.of_nat (length st + k)) (st ++ extra) =
  Lua.Done (st ++ firstn k extra).
Proof.
  intros Hk. unfold Lua.settop, Lua.gettop.
  destruct (Z.leb_spec 0 (Z.of_nat (length st + k))); [|lia].
  rewrite length_app.
  replace (Z.to_nat (Z.of_nat (length st + k) - Z.of_nat (length st + length extra)))
    with O by lia.
  cbn [repeat]. rewrite app_nil_r, Nat2Z.id, firstn_app.
  rewrite firstn_all2 by lia.
  replace (length st + k - length st)%nat with k by lia. reflexivity.
Qed.

(** The sentry made on [st] and moved up by [k], destroyed on a stack that
    holds [st] and at least [k] values more. *)
Lemma sentry_cuts_back (st extra : list value) (s : Lua.stack_sentry) (k : nat) :
  Lua.n s = Z.of_nat (length st + k) ->
  (k <= length extra)%nat ->
  Lua.stack_sentry_delete nil NDEBUG s (st ++ extra) = Lua.Done (st ++ firstn k extra).
Proof.
  intros Hn Hk. unfold Lua.stack_sentry_delete. rewrite Hn.
  rewrite assert_holds; [now apply settop_cut|].
  unfold Lua.gettop. rewrite length_app. apply Z.leb_le. lia.
Qed.

(** X17.  A sentry made on a stack and moved up by [k] leaves, when it is
    destroyed, the stack as it was when the sentry was made and the first
    [k] of the values pushed since; whatever else was pushed is popped. *)
Theorem sentry_restores_the_stack
    (st extra : list value) (s s' : Lua.stack_sentry) (k : Z) :
  Lua.stack_sentry_new NDEBUG st 0 = Lua.Done s ->
  Lua.add s k = Lua.Done s' ->
  0 <= k <= Z.of_nat (length extra) ->
  Lua.stack_sentry_delete nil NDEBUG s' (st ++ extra) =
  Lua.Done (st ++ firstn (Z.to_nat k) extra).
Proof.
  unfold Lua.stack_sentry_new, Lua.add, Lua.assert.
  destruct (Lua.to_int (Lua.gettop st + 0)) as [n0| |] eqn:E0; cbn [Lua.and_then];
    try discriminate.
  pose proof (to_int_inv _ _ E0) as ->.
  destruct (NDEBUG || _); [|discriminate].
  intros E. injection E as <-. cbn [Lua.n].
  destruct (Lua.to_int (Lua.gettop st + 0 + k)) as [n1| |] eqn:E1; cbn [Lua.and_then];
    try discriminate.
  pose proof (to_int_inv _ _ E1) as ->.
  intros E. injection E as <-. intros Hk.
  apply sentry_cuts_back; [|lia]. cbn [Lua.n]. unfold Lua.gettop. lia.
Qed.

(** X18.  [createuserdata] leaves the stack as it found it with the new
    userdata on top when the constructor returns, and as it found it when
    the constructor throws, whatever the constructor pushed above the
    userdata. *)
Theorem createuserdata_leaves_one_value
    (construct : list value -> bool * list value)
    (u : value) (st extra : list value) (threw : bool) :
  Z.of_nat (length st) < INT_MAX ->
  construct (st ++ [u]) = (threw, st ++ u :: extra) ->
  Lua.createuserdata nil NDEBUG construct u st =
  Lua.Done (threw, if threw then st else st ++ [u]).
Proof.
  intros Hlen Hc. unfold Lua.createuserdata, Lua.stack_sentry_new, Lua.incr.
  unfold Lua.gettop at 1. rewrite to_int_done by (unfold INT_MAX in *; lia).
  cbn [Lua.and_then].
  rewrite assert_holds by (apply Z.leb_le; lia). cbn [Lua.and_then].
  rewrite Hc. destruct threw.
  - rewrite (sentry_cuts_back st (u :: extra) _ O);
      [|cbn [Lua.n]; lia|cbn [length]; lia].
    cbn [Lua.and_then firstn]. now rewrite app_nil_r.
  - cbn [Lua.n]. rewrite to_int_done by (unfold INT_MAX in *; lia).
    cbn [Lua.and_then].
    rewrite (sentry_cuts_back st (u :: extra) _ 1%nat);
      [|cbn [Lua.n]; lia|cbn [length]; lia].
    reflexivity.
Qed.

End LuaProofs.

Lemma absindex_keeps_its_value_witness :
  exists j,
    Lua.absindex [10; 20; 30] (-1) = Lua.Done j
    /\ 1 <= j <= Lua.gettop [10; 20; 30]
    /\ Lua.index2value ([10; 20; 30] ++ [40]) j = Lua.index2value [10; 20; 30] (-1).
Proof.
  refine (absindex_keeps_its_value Z [10; 20; 30] [40] (-1) _ _); by_computation.
Defined.

Lemma absindex_is_idempotent_witness :
  Lua.absindex [10; 20; 30] 2 = Lua.Done 2
  /\ (0 <= 2 \/ Lua.gettop [10; 20; 30] < - 2).
Proof.
  refine (absindex_is_idempotent Z [10; 20; 30] (-2) 2 _). reflexivity.
Defined.

Lemma sentry_restores_the_stack_witness :
  Lua.stack_sentry_delete 0 false (Lua.mkSentry 3) ([10; 20] ++ [30; 40]) =
  Lua.Done ([10; 20] ++ firstn (Z.to_nat 1) [30; 40]).
Proof.
  refine (sentry_restores_the_stack Z 0 false [10; 20] [30; 40]
            (Lua.mkSentry 2) (Lua.mkSentry 3) 1 _ _ _); by_computation.
Defined.

Lemma createuserdata_leaves_one_value_witness :
  Lua.createuserdata 0 false (fun st => (false, st ++ [99])) 7 [10; 20] =
  Lua.Done (false, [10; 20] ++ [7]).
Proof.
  refine (createuserdata_leaves_one_value Z 0 false
            (fun st => (false, st ++ [99])) 7 [10; 20] [99] false _ _);
    by_computation.
Defined.
